(** * Terran tech tree: dependency resolution and its helper queries

    A shallow embedding of [bot/terran_tech_tree.py] and
    [bot/example_tech_tree_usage.py].

    - The table [TERRAN_TECH_TREE] is a Python [dict] from names to a record
      of two lists; it is a [gmap string requirements] built from the
      entries in the order the source declares them.
    - [resolve_dependencies] is a closure that mutates three variables of
      its enclosing call ([visited], [all_buildings], [all_units]); here the
      three variables form a [state] that is passed through every call.
    - The recursion of [resolve_dependencies] is not structural, so the
      embedding carries a call-depth budget; [resolve_dependencies_total]
      shows that the budget [get_build_requirements] hands out is enough on
      every table and every name.
    - [raise KeyError(...)] is an [outcome] of its own, caught by
      [can_build_unit] as the source does. *)

From stdpp Require Import base gmap sets list strings sorting relations.

#[local] Set Warnings "-clear-no-such-hyp".

(** ** Outcomes of a call *)

Inductive exn : Type :=
  | KeyError (msg : string).

Inductive outcome (A : Type) : Type :=
  | Return (a : A)
  | Raise (e : exn)
  | OutOfFuel.
Arguments Return {A} a.
Arguments Raise {A} e.
Arguments OutOfFuel {A}.

#[global] Instance outcome_ret : MRet outcome := λ A a, Return a.

#[global] Instance outcome_bind : MBind outcome := λ A B k m,
  match m with
  | Return a => k a
  | Raise e => Raise e
  | OutOfFuel => OutOfFuel
  end.

(** ** The data model *)

(** The value stored under each name: [{"buildings": [...], "units": [...]}]. *)
Record requirements : Type := Requirements {
  buildings : list string;
  units : list string
}.

(** The three variables [resolve_dependencies] closes over. *)
Record state : Type := State {
  visited : gset string;
  all_buildings : list string;
  all_units : list string
}.

(** The [immediate] entry of the result and the result itself. *)
Record build_requirements : Type := BuildRequirements {
  res_buildings : list string;
  res_units : list string;
  res_immediate : requirements
}.

(** [sorted(...)] on strings: Python compares strings code point by code
    point, a proper prefix first, which is [String.le] on the byte strings
    used here. *)
Definition sorted (l : list string) : list string := merge_sort String.le l.

(** [repr] of a list of strings, as the f-string of the error message
    prints it.  A name is printed between single quotes; that is what
    Python does for a string without quotes, backslashes and non-printable
    characters, which covers every key of the table. *)
Definition repr_str (s : string) : string := "'" +:+ s +:+ "'".

Fixpoint join (sep : string) (l : list string) : string :=
  match l with
  | [] => ""
  | [x] => x
  | x :: l' => x +:+ sep +:+ join sep l'
  end.

Definition repr_list (l : list string) : string :=
  "[" +:+ join ", " (repr_str <$> l) +:+ "]".

(** [if x not in l: l.append(x)] *)
Definition append_if_absent (x : string) (l : list string) : list string :=
  if decide (x ∈ l) then l else l ++ [x].

(** One pass of a [for] loop over a list of names whose body may run out of
    budget; [St] is what the body reads and writes. *)
Fixpoint for_each {St : Type} (body : string → St → option St)
    (l : list string) (s : St) : option St :=
  match l with
  | [] => Some s
  | x :: l' =>
      match body x s with
      | Some s' => for_each body l' s'
      | None => None
      end
  end.

(** ** [terran_tech_tree.py] over an arbitrary table *)

Section resolver.
Variable tree : gmap string requirements.

(** [sorted(TERRAN_TECH_TREE.keys())], also [get_all_terran_units]. *)
Definition get_all_terran_units : list string :=
  sorted (elements (dom tree)).

(** The closure [resolve_dependencies]; [s] holds [visited],
    [all_buildings] and [all_units] before the call and the result holds
    them after it.  [fuel] bounds the depth of the recursion, and [None]
    means that the bound was reached. *)
Fixpoint resolve_dependencies (fuel : nat) (name : string) (s : state)
    : option state :=
  match fuel with
  | O => None
  | S fuel' =>
      if decide (name ∈ visited s) then Some s
      else
        let s1 := State ({[name]} ∪ visited s) (all_buildings s) (all_units s) in
        match tree !! name with
        | None => Some s1
        | Some reqs =>
            match
              for_each
                (λ building s,
                   match resolve_dependencies fuel' building s with
                   | Some s' =>
                       Some (State (visited s')
                               (append_if_absent building (all_buildings s'))
                               (all_units s'))
                   | None => None
                   end)
                (buildings reqs) s1
            with
            | Some s2 =>
                for_each
                  (λ unit s,
                     match resolve_dependencies fuel' unit s with
                     | Some s' =>
                         Some (State (visited s') (all_buildings s')
                                 (append_if_absent unit (all_units s')))
                     | None => None
                     end)
                  (units reqs) s2
            | None => None
            end
        end
  end.

(** Every name the traversal can ever be called on. *)
Definition referenced : gset string :=
  map_fold (λ _ reqs acc,
              list_to_set (buildings reqs) ∪ list_to_set (units reqs) ∪ acc)
           ∅ tree.

Definition names : gset string := dom tree ∪ referenced.

Definition initial_state : state := State ∅ [] [].

Definition unknown_unit_message (unit_name : string) : string :=
  "Unit '" +:+ unit_name +:+ "' not found in Terran tech tree. "
    +:+ "Available units: " +:+ repr_list get_all_terran_units.

Definition get_build_requirements (unit_name : string)
    : outcome build_requirements :=
  match tree !! unit_name with
  | None => Raise (KeyError (unknown_unit_message unit_name))
  | Some immediate_requirements =>
      match resolve_dependencies (S (size names)) unit_name initial_state with
      | Some s =>
          Return (BuildRequirements (all_buildings s) (all_units s)
                    (Requirements (buildings immediate_requirements)
                                  (units immediate_requirements)))
      | None => OutOfFuel
      end
  end.

(** [resolve_dependencies] with a log: the same body, and in addition the
    early [return] under [if name not in TERRAN_TECH_TREE] appends the
    name it was reached with to [log].  The log is written and never
    read. *)
Fixpoint resolve_dependencies_guard_log (fuel : nat) (name : string)
    (sl : state * list string) : option (state * list string) :=
  match fuel with
  | O => None
  | S fuel' =>
      if decide (name ∈ visited sl.1) then Some sl
      else
        let s1 := State ({[name]} ∪ visited sl.1)
                    (all_buildings sl.1) (all_units sl.1) in
        match tree !! name with
        | None => Some (s1, sl.2 ++ [name])
        | Some reqs =>
            match
              for_each
                (λ building sl,
                   match resolve_dependencies_guard_log fuel' building sl with
                   | Some sl' =>
                       Some (State (visited sl'.1)
                               (append_if_absent building (all_buildings sl'.1))
                               (all_units sl'.1), sl'.2)
                   | None => None
                   end)
                (buildings reqs) (s1, sl.2)
            with
            | Some sl2 =>
                for_each
                  (λ unit sl,
                     match resolve_dependencies_guard_log fuel' unit sl with
                     | Some sl' =>
                         Some (State (visited sl'.1) (all_buildings sl'.1)
                                 (append_if_absent unit (all_units sl'.1)),
                               sl'.2)
                     | None => None
                     end)
                  (units reqs) sl2
            | None => None
            end
        end
  end.
End resolver.

(** ** The table of [terran_tech_tree.py], in the order it is written *)

Definition TERRAN_TECH_TREE_entries : list (string * requirements) := [
  (* BUILDINGS *)
  (* Base structures (no requirements) *)
  ("CommandCenter", Requirements [] []);
  ("SupplyDepot", Requirements [] []);
  ("Refinery", Requirements [] []);
  (* Tier 1 structures *)
  ("Barracks", Requirements ["SupplyDepot"] []);
  ("OrbitalCommand", Requirements ["Barracks"] []);
  ("PlanetaryFortress", Requirements ["EngineeringBay"] []);
  ("EngineeringBay", Requirements ["CommandCenter"] []);
  ("Bunker", Requirements ["Barracks"] []);
  ("MissileTurret", Requirements ["EngineeringBay"] []);
  ("SensorTower", Requirements ["EngineeringBay"] []);
  ("GhostAcademy", Requirements ["Barracks"] []);
  (* Tier 2 structures *)
  ("Factory", Requirements ["Barracks"] []);
  ("Armory", Requirements ["Factory"] []);
  (* Tier 3 structures *)
  ("Starport", Requirements ["Factory"] []);
  ("FusionCore", Requirements ["Starport"] []);
  (* Add-ons (require production building) *)
  ("BarracksTechLab", Requirements ["Barracks"] []);
  ("BarracksReactor", Requirements ["Barracks"] []);
  ("FactoryTechLab", Requirements ["Factory"] []);
  ("FactoryReactor", Requirements ["Factory"] []);
  ("StarportTechLab", Requirements ["Starport"] []);
  ("StarportReactor", Requirements ["Starport"] []);
  (* UNITS *)
  (* Command Center units *)
  ("SCV", Requirements ["CommandCenter"] []);
  ("MULE", Requirements ["OrbitalCommand"] []);
  (* Barracks units *)
  ("Marine", Requirements ["Barracks"] []);
  ("Reaper", Requirements ["Barracks"] []);
  ("Marauder", Requirements ["Barracks"; "BarracksTechLab"] []);
  ("Ghost", Requirements ["Barracks"; "BarracksTechLab"; "GhostAcademy"] []);
  (* Factory units *)
  ("Hellion", Requirements ["Factory"] []);
  ("Hellbat", Requirements ["Factory"; "Armory"] []);
  ("WidowMine", Requirements ["Factory"] []);
  ("Cyclone", Requirements ["Factory"; "FactoryTechLab"] []);
  ("SiegeTank", Requirements ["Factory"; "FactoryTechLab"] []);
  ("Thor", Requirements ["Factory"; "FactoryTechLab"; "Armory"] []);
  (* Starport units *)
  ("Viking", Requirements ["Starport"] []);
  ("Medivac", Requirements ["Starport"] []);
  ("Liberator", Requirements ["Starport"] []);
  ("Banshee", Requirements ["Starport"; "StarportTechLab"] []);
  ("Raven", Requirements ["Starport"; "StarportTechLab"] []);
  ("Battlecruiser", Requirements ["Starport"; "StarportTechLab"; "FusionCore"] []);
  (* Summoned units *)
  ("AutoTurret", Requirements ["Starport"; "StarportTechLab"] ["Raven"])
].

Definition TERRAN_TECH_TREE : gmap string requirements :=
  list_to_map TERRAN_TECH_TREE_entries.

(** ** [example_tech_tree_usage.py] *)

Section usage.
Variable tree : gmap string requirements.

Definition can_build_unit (unit_name : string)
    (available_buildings : list string) : outcome (bool * list string) :=
  match get_build_requirements tree unit_name with
  | Return reqs =>
      let required_buildings : gset string := list_to_set (res_buildings reqs) in
      let available : gset string := list_to_set available_buildings in
      let missing := required_buildings ∖ available in
      let can_build := bool_decide (size missing = 0) in
      Return (can_build, sorted (elements missing))
  | Raise (KeyError _) =>
      Return (false, ["Unknown unit: " +:+ unit_name])
  | OutOfFuel => OutOfFuel
  end.

(** [for building in build_order: if building not in available_buildings:
    return building], then [return None]. *)
Fixpoint first_missing (build_order available_buildings : list string)
    : option string :=
  match build_order with
  | [] => None
  | building :: rest =>
      if decide (building ∈ available_buildings)
      then first_missing rest available_buildings
      else Some building
  end.

Definition get_next_building_to_build (target_unit : string)
    (available_buildings : list string) : outcome (option string) :=
  '(can_build, missing) ← can_build_unit target_unit available_buildings;
  if (can_build : bool) then Return None
  else
    match missing with
    | [] => Return None
    | _ :: _ =>
        reqs ← get_build_requirements tree target_unit;
        Return (first_missing (res_buildings reqs) available_buildings)
    end.

(** The loop of "Example 3: Step-by-step tech progression":
    [while True: next_building = get_next_building_to_build(target, buildings);
     if next_building is None: break; buildings.append(next_building)].
    [fuel] bounds the number of times the loop body is entered; the result
    is the final value of [buildings]. *)
Fixpoint tech_progression (fuel : nat) (target : string)
    (buildings : list string) : outcome (list string) :=
  match fuel with
  | O => OutOfFuel
  | S fuel' =>
      next_building ← get_next_building_to_build target buildings;
      match next_building with
      | None => Return buildings
      | Some b => tech_progression fuel' target (buildings ++ [b])
      end
  end.
End usage.

(** ** Notions the properties are stated with *)

Definition direct_prerequisites (tree : gmap string requirements)
    (X : string) : list string :=
  match tree !! X with
  | Some reqs => buildings reqs ++ units reqs
  | None => []
  end.

(** [requires tree A B]: the record of [A] lists [B]. *)
Definition requires (tree : gmap string requirements) (A B : string) : Prop :=
  B ∈ direct_prerequisites tree A.

(** Closed world: every listed name is a key. *)
Definition closed_world (tree : gmap string requirements) : Prop :=
  ∀ A B, requires tree A B → B ∈ dom tree.

(** The set [required_buildings - available] of [can_build_unit]. *)
Definition missing_set (r : build_requirements)
    (available_buildings : list string) : gset string :=
  list_to_set (res_buildings r) ∖ list_to_set available_buildings.

(** How many entries of [build_order] are not in [available_buildings]. *)
Fixpoint still_missing (build_order available_buildings : list string) : nat :=
  match build_order with
  | [] => 0
  | building :: rest =>
      (if decide (building ∈ available_buildings) then 0 else 1)
      + still_missing rest available_buildings
  end.

(** Every direct prerequisite of an entry of [l] that is in [l] at all is in
    [l] at a smaller index. *)
Definition prerequisites_first (tree : gmap string requirements)
    (l : list string) : Prop :=
  ∀ i X P, l !! i = Some X → P ∈ direct_prerequisites tree X → P ∈ l →
           ∃ j, j < i ∧ l !! j = Some P.

Fixpoint prerequisites_first_from (tree : gmap string requirements)
    (whole pre rest : list string) : bool :=
  match rest with
  | [] => true
  | X :: rest' =>
      forallb (λ P, bool_decide (P ∈ whole → P ∈ pre))
              (direct_prerequisites tree X)
      && prerequisites_first_from tree whole (pre ++ [X]) rest'
  end.

(** A check that is run on the result of [get_build_requirements] for every
    key of the table, in the order the table lists them. *)
Definition for_all_defined (chk : string → build_requirements → bool) : bool :=
  forallb
    (λ e, match get_build_requirements TERRAN_TECH_TREE e.1 with
          | Return r => chk e.1 r
          | _ => false
          end)
    TERRAN_TECH_TREE_entries.

(** The number of names [get_build_requirements] lists for [E]. *)
Definition rank (E : string) : nat :=
  match get_build_requirements TERRAN_TECH_TREE E with
  | Return r => length (res_buildings r) + length (res_units r)
  | _ => 0
  end.

(** A name made of ASCII letters only. *)
Definition plain_name (s : string) : bool :=
  forallb (λ c, let n := Ascii.nat_of_ascii c in
                ((65 <=? n) && (n <=? 90)) || ((97 <=? n) && (n <=? 122)))
          (String.list_ascii_of_string s).

(** Two small tables for the traversal: a diamond ([C] needs [A] and [B],
    which both need [S]), and a table in which [U] is a unit prerequisite of
    [X] and a building prerequisite of [Y]. *)
Definition diamond_tree : gmap string requirements :=
  list_to_map [
    ("S", Requirements [] []);
    ("A", Requirements ["S"] []);
    ("B", Requirements ["S"] []);
    ("C", Requirements ["A"; "B"] [])
  ].

Definition mixed_tree : gmap string requirements :=
  list_to_map [
    ("U", Requirements [] []);
    ("X", Requirements [] ["U"]);
    ("Y", Requirements ["X"; "U"] [])
  ].

(** ** [example_tech_tree_usage.py], continued *)

(** The loop of [get_tech_path]: [for building in all_required: if building
    not in available: tech_path.append(building)]. *)
Fixpoint tech_path_loop (all_required : list string) (available : gset string)
    (tech_path : list string) : list string :=
  match all_required with
  | [] => tech_path
  | building :: rest =>
      tech_path_loop rest available
        (if decide (building ∈ available) then tech_path
         else tech_path ++ [building])
  end.

(** [get_tech_path] does not catch the [KeyError] of
    [get_build_requirements]. *)
Definition get_tech_path (tree : gmap string requirements)
    (start_buildings : list string) (target_unit : string)
    : outcome (list string) :=
  reqs ← get_build_requirements tree target_unit;
  let all_required := res_buildings reqs in
  let available : gset string := list_to_set start_buildings in
  Return (tech_path_loop all_required available []).

(** ** Notions for the traversal on an arbitrary table *)

(** [t] has everything [s] has: the traversal only ever adds. *)
Definition state_le (s t : state) : Prop :=
  visited s ⊆ visited t ∧
  all_buildings s ⊆ all_buildings t ∧
  all_units s ⊆ all_units t.

(** In [t] the record of [A] has been worked off: every name it lists is
    visited and is in the list of its kind. *)
Definition expanded (tree : gmap string requirements) (t : state)
    (A : string) : Prop :=
  ∀ reqs, tree !! A = Some reqs →
    (∀ b, b ∈ buildings reqs → b ∈ visited t ∧ b ∈ all_buildings t) ∧
    (∀ u, u ∈ units reqs → u ∈ visited t ∧ u ∈ all_units t).

(** Every visited name is worked off, but for the names of [G] (the calls
    that are still running). *)
Definition closed_except (tree : gmap string requirements) (G : gset string)
    (t : state) : Prop :=
  ∀ A, A ∈ visited t → A ∉ G → expanded tree t A.

(** [b] is listed as a building ([listed_building]) or as a unit
    ([listed_unit]) by [E] or by a name that [E] requires, directly or
    through other records. *)
Definition listed_building (tree : gmap string requirements)
    (E b : string) : Prop :=
  ∃ A reqs, rtc (requires tree) E A ∧ tree !! A = Some reqs ∧
            b ∈ buildings reqs.

Definition listed_unit (tree : gmap string requirements)
    (E u : string) : Prop :=
  ∃ A reqs, rtc (requires tree) E A ∧ tree !! A = Some reqs ∧
            u ∈ units reqs.

(** A table with a cycle and a dangling name. *)
Definition cyclic_tree : gmap string requirements :=
  list_to_map [
    ("A", Requirements ["B"] []);
    ("B", Requirements ["A"; "Nowhere"] ["A"])
  ].

(** ** [main.py]: the bot that uses the build orders

    [TankBot] derives from the framework class [AresBot]; the framework is
    not part of this repository.  What the bot reads from it and what it
    asks of it is the record [framework]: the observations are functions of
    an abstract game state [world], and every request ([register_behavior],
    [train], the inherited [on_step]) is a transition of [world] about which
    nothing is assumed.  Every request is also written to a trace of
    [call]s, in the order the bot makes them.  Supply numbers are rationals
    (the framework types them as floats with whole or half values). *)

(** The members of the enum [UnitTypeId] that [main.py] names, and one
    constructor for all the others. *)
Inductive UnitTypeId : Type :=
  | SUPPLYDEPOT | BARRACKS | FACTORY | STARPORT
  | BARRACKSTECHLAB | FACTORYTECHLAB | STARPORTTECHLAB
  | SCV | MARINE | SIEGETANK | VIKING
  | OtherUnitTypeId (n : nat).

#[global] Instance UnitTypeId_eq_dec : EqDecision UnitTypeId.
Proof. solve_decision. Defined.

(** What the bot reads of a structure or a town hall. *)
Record sc2_unit : Type := Sc2Unit {
  type_id : UnitTypeId;
  is_ready : bool;
  has_techlab : bool;
  is_idle : bool
}.

(** The behaviours the bot registers.  [SpawnController] is always built
    with the one-entry dict [{unit_type: {"proportion": 1.0, "priority": 0}}]
    and [freeflow_mode=True]; the entry's unit type and [maximum] are kept. *)
Inductive behavior (Point2 : Type) : Type :=
  | Mining
  | BuildStructure (base_location : Point2) (structure_id : UnitTypeId)
      (production : bool)
  | TechUp (desired_tech : UnitTypeId) (base_location : Point2)
  | SpawnController (unit_type : UnitTypeId) (maximum : nat).
Arguments Mining {Point2}.
Arguments BuildStructure {Point2} base_location structure_id production.
Arguments TechUp {Point2} desired_tech base_location.
Arguments SpawnController {Point2} unit_type maximum.

Inductive call (Point2 : Type) : Type :=
  | CallSuperOnStep (iteration : Z)
  | CallRegisterBehavior (b : behavior Point2)
  | CallTrain (townhall : sc2_unit) (unit_type : UnitTypeId)
  | CallPrint (msg : string).
Arguments CallSuperOnStep {Point2} iteration.
Arguments CallRegisterBehavior {Point2} b.
Arguments CallTrain {Point2} townhall unit_type.
Arguments CallPrint {Point2} msg.

Record framework : Type := Framework {
  world : Type;
  Point2 : Type;
  supply_left : world → QArith_base.Q;
  supply_cap : world → QArith_base.Q;
  can_afford : world → UnitTypeId → bool;
  structures : world → list sc2_unit;
  townhalls_ready : world → list sc2_unit;
  workers_amount : world → nat;
  start_location : world → Point2;
  calculate_supply_cost : world → UnitTypeId → QArith_base.Q;
  (** [ares.consts.TECHLAB_TYPES], as its membership test *)
  TECHLAB_TYPES : UnitTypeId → bool;
  register_behavior : behavior Point2 → world → world;
  train : sc2_unit → UnitTypeId → world → world;
  super_on_step : Z → world → world
}.

(** The game state as the bot sees it now, and the requests made so far. *)
Record frame (F : framework) : Type := Frame {
  game : world F;
  calls : list (call (Point2 F))
}.
Arguments Frame {F} game calls.
Arguments game {F} f.
Arguments calls {F} f.

(** The attributes [__init__] sets. *)
Record TankBot : Type := MkTankBot {
  marine_build_order : build_requirements;
  siege_tank_build_order : build_requirements;
  viking_build_order : build_requirements;
  current_build_phase : string;
  marines_ready : bool;
  tanks_ready : bool;
  vikings_ready : bool
}.

(** The whole numbers among the supply numbers, and [x < y] on supply
    numbers. *)
Definition Qint (n : Z) : QArith_base.Q := QArith_base.inject_Z n.

Definition Qltb (x y : QArith_base.Q) : bool :=
  match QArith_base.Qlt_le_dec x y with
  | left _ => true
  | right _ => false
  end.

(** [TankBot.__init__]: the three build orders are fetched at construction;
    a [KeyError] of [get_build_requirements] is not caught. *)
Definition TankBot_init : outcome TankBot :=
  marine ← get_build_requirements TERRAN_TECH_TREE "Marine";
  siege_tank ← get_build_requirements TERRAN_TECH_TREE "SiegeTank";
  viking ← get_build_requirements TERRAN_TECH_TREE "Viking";
  Return (MkTankBot marine siege_tank viking "marines" false false false).

(** The dict [name_to_unit_type] of [on_step]. *)
Definition name_to_unit_type : gmap string UnitTypeId :=
  list_to_map [
    ("SupplyDepot", SUPPLYDEPOT);
    ("Barracks", BARRACKS);
    ("Factory", FACTORY);
    ("FactoryTechLab", FACTORYTECHLAB);
    ("Starport", STARPORT)
  ].

(** [techlab_to_structure.get(unit_type)]; the test [if base_structure:]
    that follows it holds for every member the dict can return (a member of
    an [Enum] is truthy) and fails for the [None] of a missing key. *)
Definition techlab_to_structure_get (unit_type : UnitTypeId)
    : option UnitTypeId :=
  match unit_type with
  | BARRACKSTECHLAB => Some BARRACKS
  | FACTORYTECHLAB => Some FACTORY
  | STARPORTTECHLAB => Some STARPORT
  | _ => None
  end.

Section tankbot.
Context (F : framework).

Definition do_register_behavior (b : behavior (Point2 F)) (f : frame F)
    : frame F :=
  Frame (register_behavior F b (game f)) (calls f ++ [CallRegisterBehavior b]).

Definition do_train (townhall : sc2_unit) (unit_type : UnitTypeId)
    (f : frame F) : frame F :=
  Frame (train F townhall unit_type (game f))
        (calls f ++ [CallTrain townhall unit_type]).

Definition do_super_on_step (iteration : Z) (f : frame F) : frame F :=
  Frame (super_on_step F iteration (game f))
        (calls f ++ [CallSuperOnStep iteration]).

Definition do_print (msg : string) (f : frame F) : frame F :=
  Frame (game f) (calls f ++ [CallPrint msg]).

(** The block that [_build_required_structures], [build_workers] and
    [build_units] each have under their supply test:
    [if self.can_afford(SUPPLYDEPOT): pending_depots = ...;
     if len(pending_depots) == 0: self.register_behavior(BuildStructure(...))]. *)
Definition request_supply_depot (f : frame F) : frame F :=
  if can_afford F (game f) SUPPLYDEPOT then
    let pending_depots :=
      filter (λ s, type_id s = SUPPLYDEPOT ∧ is_ready s = false)
             (structures F (game f)) in
    if decide (length pending_depots = 0) then
      do_register_behavior
        (BuildStructure (start_location F (game f)) SUPPLYDEPOT false) f
    else f
  else f.

(** One round of the loop of [_build_required_structures]. *)
Definition build_required_structure (mapping : gmap string UnitTypeId)
    (building_name : string) (st : bool * frame F) : bool * frame F :=
  let '(all_ready, f) := st in
  match mapping !! building_name with
  | None => (all_ready, f)
  | Some unit_type =>
      let f :=
        if Qltb (supply_left F (game f)) (Qint 2)
           && Qltb (supply_cap F (game f)) (Qint 200)
        then request_supply_depot f else f in
      if TECHLAB_TYPES F unit_type then
        match techlab_to_structure_get unit_type with
        | Some base_structure =>
            let structures_with_techlab :=
              filter (λ s, type_id s = base_structure ∧ has_techlab s = true ∧
                           is_ready s = true)
                     (structures F (game f)) in
            if decide (length structures_with_techlab = 0) then
              (false,
               if can_afford F (game f) unit_type then
                 do_register_behavior
                   (TechUp unit_type (start_location F (game f))) f
               else f)
            else (all_ready, f)
        | None => (all_ready, f)
        end
      else
        let existing :=
          filter (λ s, type_id s = unit_type ∧ is_ready s = true)
                 (structures F (game f)) in
        if decide (length existing = 0) then
          let pending :=
            filter (λ s, type_id s = unit_type) (structures F (game f)) in
          (false,
           if decide (length pending = 0) then
             if can_afford F (game f) unit_type then
               do_register_behavior
                 (BuildStructure (start_location F (game f)) unit_type
                    (bool_decide (unit_type ∈ [BARRACKS; FACTORY; STARPORT])))
                 f
             else f
           else f)
        else (all_ready, f)
  end.

(** [TankBot._build_required_structures] *)
Definition build_required_structures (build_order : build_requirements)
    (mapping : gmap string UnitTypeId) (f : frame F) : bool * frame F :=
  let required_buildings := res_buildings build_order in
  foldl (λ st building_name, build_required_structure mapping building_name st)
        (true, f) required_buildings.

(** The loop of [build_workers]; [break] ends it. *)
Fixpoint build_workers_loop (townhalls : list sc2_unit)
    (current_workers target_workers : nat) (f : frame F) : frame F :=
  match townhalls with
  | [] => f
  | townhall :: rest =>
      if decide (target_workers ≤ current_workers) then f
      else if is_idle townhall && can_afford F (game f) SCV then
        build_workers_loop rest (current_workers + 1) target_workers
          (do_train townhall SCV f)
      else build_workers_loop rest current_workers target_workers f
  end.

(** [TankBot.build_workers] *)
Definition build_workers (f : frame F) : frame F :=
  let townhalls := townhalls_ready F (game f) in
  match townhalls with
  | [] => f
  | _ :: _ =>
      let current_workers := workers_amount F (game f) in
      let target_workers := length townhalls * 16 in
      if decide (target_workers ≤ current_workers) then f
      else if Qltb (supply_left F (game f)) (Qint 1)
              && Qltb (supply_cap F (game f)) (Qint 200)
      then request_supply_depot f
      else build_workers_loop townhalls current_workers target_workers f
  end.

(** [TankBot.build_units] *)
Definition build_units (unit_type : UnitTypeId) (num_units : nat)
    (f : frame F) : frame F :=
  let unit_supply_cost := calculate_supply_cost F (game f) unit_type in
  if Qltb (supply_left F (game f)) unit_supply_cost
     && Qltb (supply_cap F (game f)) (Qint 200)
  then request_supply_depot f
  else if negb (can_afford F (game f) unit_type) then f
  else do_register_behavior (SpawnController unit_type num_units) f.

(** [TankBot.on_step] *)
Definition on_step (iteration : Z) (self : TankBot) (f : frame F)
    : TankBot * frame F :=
  let f := do_super_on_step iteration f in
  let f := do_register_behavior Mining f in
  let f := build_workers f in
  let '(self, f) :=
    if decide (current_build_phase self = "marines") then
      let '(done, f) :=
        build_required_structures (marine_build_order self)
          name_to_unit_type f in
      if done then
        (MkTankBot (marine_build_order self) (siege_tank_build_order self)
           (viking_build_order self) "tanks" true (tanks_ready self)
           (vikings_ready self),
         do_print "Marines build requirements complete! Moving to Tanks phase."
           f)
      else (self, f)
    else if decide (current_build_phase self = "tanks") then
      let '(done, f) :=
        build_required_structures (siege_tank_build_order self)
          name_to_unit_type f in
      if done then
        (MkTankBot (marine_build_order self) (siege_tank_build_order self)
           (viking_build_order self) "vikings" (marines_ready self) true
           (vikings_ready self),
         do_print
           "Siege Tanks build requirements complete! Moving to Vikings phase."
           f)
      else (self, f)
    else if decide (current_build_phase self = "vikings") then
      let '(done, f) :=
        build_required_structures (viking_build_order self)
          name_to_unit_type f in
      if done then
        (MkTankBot (marine_build_order self) (siege_tank_build_order self)
           (viking_build_order self) "complete" (marines_ready self)
           (tanks_ready self) true,
         do_print "Vikings build requirements complete! All phases done." f)
      else (self, f)
    else (self, f) in
  let f := if marines_ready self then build_units MARINE 10 f else f in
  let f := if tanks_ready self then build_units SIEGETANK 5 f else f in
  let f := if vikings_ready self then build_units VIKING 3 f else f in
  (self, f).
End tankbot.

(** ** Notions for the bot *)

(** [f'] has the calls of [f] and then only calls that satisfy [P]. *)
Definition extends_with {F : framework} (P : call (Point2 F) → Prop)
    (f f' : frame F) : Prop :=
  ∃ new, calls f' = calls f ++ new ∧ Forall P new.

(** The phases in the order [on_step] goes through them. *)
Definition phase_rank (phase : string) : nat :=
  if decide (phase = "marines") then 0
  else if decide (phase = "tanks") then 1
  else if decide (phase = "vikings") then 2
  else 3.

(** The flags say which phases are behind the bot. *)
Definition phase_consistent (self : TankBot) : Prop :=
  current_build_phase self ∈ ["marines"; "tanks"; "vikings"; "complete"] ∧
  marines_ready self = bool_decide (1 ≤ phase_rank (current_build_phase self)) ∧
  tanks_ready self = bool_decide (2 ≤ phase_rank (current_build_phase self)) ∧
  vikings_ready self = bool_decide (3 ≤ phase_rank (current_build_phase self)).

(** A structure of type [unit_type] counts as there for
    [_build_required_structures]: for a tech lab with a known base, a ready
    base with a tech lab; for a tech lab type without a known base, always;
    for any other type, a ready structure of that type. *)
Definition structure_ready (F : framework) (w : world F)
    (unit_type : UnitTypeId) : Prop :=
  if TECHLAB_TYPES F unit_type then
    match techlab_to_structure_get unit_type with
    | Some base_structure =>
        ∃ s, s ∈ structures F w ∧ type_id s = base_structure ∧
             has_techlab s = true ∧ is_ready s = true
    | None => True
    end
  else ∃ s, s ∈ structures F w ∧ type_id s = unit_type ∧ is_ready s = true.

(** Registering a behaviour does not change what the bot reads in the same
    frame. *)
Definition register_keeps_observations (F : framework) : Prop :=
  ∀ b w,
    structures F (register_behavior F b w) = structures F w ∧
    can_afford F (register_behavior F b w) = can_afford F w ∧
    supply_left F (register_behavior F b w) = supply_left F w ∧
    supply_cap F (register_behavior F b w) = supply_cap F w ∧
    start_location F (register_behavior F b w) = start_location F w.

(** A framework for examples: the game state is what the bot can read, and
    no request changes it within the frame. *)
Record snapshot : Type := Snapshot {
  snap_supply_left : Z;
  snap_supply_cap : Z;
  snap_affordable : list UnitTypeId;
  snap_structures : list sc2_unit;
  snap_townhalls : list sc2_unit;
  snap_workers : nat
}.

Definition snapshot_framework : framework :=
  Framework snapshot ()
    (λ w, Qint (snap_supply_left w))
    (λ w, Qint (snap_supply_cap w))
    (λ w t, bool_decide (t ∈ snap_affordable w))
    snap_structures
    snap_townhalls
    snap_workers
    (λ _, ())
    (λ _ t, match t with
            | MARINE => Qint 1 | SIEGETANK => Qint 3 | VIKING => Qint 2
            | _ => Qint 1
            end)
    (λ t, bool_decide (t ∈ [BARRACKSTECHLAB; FACTORYTECHLAB; STARPORTTECHLAB]))
    (λ _ w, w)
    (λ _ _ w, w)
    (λ _ w, w).

(** A start of the game: one idle command centre, twelve workers, fifteen
    supply of which twelve are used, and money for a depot and a worker. *)
Definition opening_snapshot : snapshot :=
  Snapshot 3 15 [SUPPLYDEPOT; SCV] []
    [Sc2Unit (OtherUnitTypeId 18) true false true] 12.

(** The same with no supply left. *)
Definition supply_blocked_snapshot : snapshot :=
  Snapshot 0 15 [SUPPLYDEPOT; SCV; BARRACKS] []
    [Sc2Unit (OtherUnitTypeId 18) true false true] 15.

(** The request for a supply depot, and a request to train. *)
Definition is_depot_request {Point2 : Type} (c : call Point2) : bool :=
  match c with
  | CallRegisterBehavior (BuildStructure _ SUPPLYDEPOT false) => true
  | _ => false
  end.


(** Two game states in which the bot reads the same. *)
Definition same_observations (F : framework) (w w' : world F) : Prop :=
  structures F w' = structures F w ∧
  can_afford F w' = can_afford F w ∧
  supply_left F w' = supply_left F w ∧
  supply_cap F w' = supply_cap F w ∧
  start_location F w' = start_location F w.

(** What [_build_required_structures] may ask for in the game state [w]:
    a structure it can pay for, which is a supply depot or of a type of
    which there is no structure yet; or a tech lab it can pay for and whose
    base does not have one. *)
Definition allowed_request (F : framework) (w : world F)
    (c : call (Point2 F)) : Prop :=
  (∃ t p,
     c = CallRegisterBehavior (BuildStructure (start_location F w) t p) ∧
     can_afford F w t = true ∧
     ((t = SUPPLYDEPOT ∧ p = false) ∨
      (∀ s, s ∈ structures F w → type_id s ≠ t))) ∨
  (∃ t,
     c = CallRegisterBehavior (TechUp t (start_location F w)) ∧
     can_afford F w t = true ∧
     ¬ structure_ready F w t).

(** The bot as [__init__] leaves it. *)
Definition initial_bot : TankBot :=
  MkTankBot
    (BuildRequirements ["SupplyDepot"; "Barracks"] []
       (Requirements ["Barracks"] []))
    (BuildRequirements ["SupplyDepot"; "Barracks"; "Factory"; "FactoryTechLab"]
       [] (Requirements ["Factory"; "FactoryTechLab"] []))
    (BuildRequirements ["SupplyDepot"; "Barracks"; "Factory"; "Starport"] []
       (Requirements ["Starport"] []))
    "marines" false false false.

(** The first frame of a game in [snapshot_framework]. *)
Definition opening_frame : frame snapshot_framework :=
  Frame (F := snapshot_framework) opening_snapshot [].

Definition supply_blocked_frame : frame snapshot_framework :=
  Frame (F := snapshot_framework) supply_blocked_snapshot [].

(** * Properties *)

(** ** The traversal on an arbitrary table *)

Section resolver_facts.
Variable tree : gmap string requirements.

Lemma for_each_inv {St} (I : St → Prop) (body : string → St → option St) l :
  (∀ x s s', x ∈ l → I s → body x s = Some s' → I s') →
  ∀ s s', I s → for_each body l s = Some s' → I s'.
Proof.
  induction l as [|x l IH]; intros Hbody s s' Hs Hrun; simpl in Hrun.
  - by simplify_eq.
  - destruct (body x s) as [s1|] eqn:Hx; [|done].
    apply (IH (λ y t t' Hy, Hbody y t t' (list_elem_of_further _ _ _ Hy)) s1);
      [|done].
    eapply Hbody; [left|done..].
Qed.

(** A proof rule for the traversal: an invariant [I] of the three
    variables survives a call on a name satisfying [Q] when it survives
    the three assignments of the body and [Q] passes from a name to the
    names its record lists. *)
Lemma resolve_dependencies_inv (I : state → Prop) (Q : string → Prop) :
  (∀ name s, Q name → I s →
     I (State ({[name]} ∪ visited s) (all_buildings s) (all_units s))) →
  (∀ b s, Q b → I s →
     I (State (visited s) (append_if_absent b (all_buildings s)) (all_units s))) →
  (∀ u s, Q u → I s →
     I (State (visited s) (all_buildings s) (append_if_absent u (all_units s)))) →
  (∀ name reqs (x : string), Q name → tree !! name = Some reqs →
     x ∈ buildings reqs ++ units reqs → Q x) →
  ∀ fuel name s s',
    Q name → I s → resolve_dependencies tree fuel name s = Some s' → I s'.
Proof.
  intros Hmark Hb Hu Hstep.
  induction fuel as [|fuel IH]; intros name s s' Hname Hs Hrun; [done|].
  simpl in Hrun. case_decide; [by simplify_eq|].
  destruct (tree !! name) as [reqs|] eqn:Hlook; [|simplify_eq; by apply Hmark].
  match type of Hrun with
  | match ?loop with _ => _ end = _ => destruct loop as [s2|] eqn:Hloop
  end; [|done].
  eapply for_each_inv; [| |exact Hrun].
  - intros u t t' Hin Ht Hcall. simpl in Hcall.
    destruct (resolve_dependencies tree fuel u t) as [t1|] eqn:Hrec; [|done].
    assert (Q u) by (apply (Hstep name reqs); [done..|set_solver]).
    simplify_eq. apply Hu; [done|]. by eapply IH.
  - eapply for_each_inv; [| |exact Hloop].
    + intros b t t' Hin Ht Hcall. simpl in Hcall.
      destruct (resolve_dependencies tree fuel b t) as [t1|] eqn:Hrec; [|done].
      assert (Q b) by (apply (Hstep name reqs); [done..|set_solver]).
      simplify_eq. apply Hb; [done|]. by eapply IH.
    + by apply Hmark.
Qed.

Lemma for_each_total {St} (I : St → Prop) (body : string → St → option St) l :
  (∀ x s, x ∈ l → I s → ∃ s', body x s = Some s' ∧ I s') →
  ∀ s, I s → ∃ s', for_each body l s = Some s' ∧ I s'.
Proof.
  induction l as [|x l IH]; intros Hbody s Hs; simpl; [by eauto|].
  destruct (Hbody x s) as (s1 & -> & Hs1); [left|done|].
  apply IH; [|done]. intros y t Hy. apply Hbody. by right.
Qed.

Lemma elem_of_referenced name reqs (x : string) :
  tree !! name = Some reqs → x ∈ buildings reqs ++ units reqs →
  x ∈ referenced tree.
Proof.
  unfold referenced. revert name reqs x.
  apply (map_fold_weak_ind
           (λ (acc : gset string) (m : gmap string requirements),
              ∀ name reqs (x : string), m !! name = Some reqs →
                x ∈ buildings reqs ++ units reqs → x ∈ acc)).
  - intros name reqs x Hlook. by rewrite lookup_empty in Hlook.
  - intros i r m acc Hfresh IH name reqs x Hlook Hx.
    destruct (decide (i = name)) as [->|Hne].
    + rewrite lookup_insert_eq in Hlook. simplify_eq. set_solver.
    + rewrite lookup_insert_ne in Hlook by done.
      specialize (IH name reqs x Hlook Hx). set_solver.
Qed.

(** The traversal returns: a call on a name that is not yet visited marks
    it, so the names left to visit are fewer at every level of the
    recursion, and [fuel] levels are enough as soon as [fuel] exceeds
    their number. *)
Lemma resolve_dependencies_total fuel name s :
  name ∈ names tree → size (names tree ∖ visited s) < fuel →
  ∃ s', resolve_dependencies tree fuel name s = Some s' ∧
        visited s ⊆ visited s'.
Proof.
  revert name s.
  induction fuel as [|fuel IH]; intros name s Hname Hsize; [lia|].
  simpl. case_decide as Hvis; [by eauto|].
  set (s1 := State ({[name]} ∪ visited s) (all_buildings s) (all_units s)).
  assert (size (names tree ∖ visited s1) < fuel) as Hsize1.
  { assert (names tree ∖ visited s1 ⊂ names tree ∖ visited s) as Hsub
      by (subst s1; simpl; set_solver).
    apply subset_size in Hsub. lia. }
  destruct (tree !! name) as [reqs|] eqn:Hlook;
    [|exists s1; split; [done|subst s1; simpl; set_solver]].
  assert (∀ x : string, x ∈ buildings reqs ++ units reqs → x ∈ names tree)
    as Hchild.
  { intros x Hx. apply elem_of_union_r. by eapply elem_of_referenced. }
  assert (∀ t, visited s1 ⊆ visited t → size (names tree ∖ visited t) < fuel)
    as Hle.
  { intros t Ht. eapply Nat.le_lt_trans; [|exact Hsize1].
    apply subseteq_size. set_solver. }
  edestruct (for_each_total (λ t, visited s1 ⊆ visited t)) as (s2 & -> & Hs2);
    [|reflexivity|].
  { intros b t Hb Ht. simpl.
    destruct (IH b t) as (t1 & -> & Ht1); [apply Hchild; set_solver|by apply Hle|].
    eexists; split; [done|]. simpl. set_solver. }
  edestruct (for_each_total (λ t, visited s1 ⊆ visited t)) as (s3 & -> & Hs3);
    [|exact Hs2|].
  { intros u t Hu Ht. simpl.
    destruct (IH u t) as (t1 & -> & Ht1); [apply Hchild; set_solver|by apply Hle|].
    eexists; split; [done|]. simpl. set_solver. }
  exists s3. split; [done|]. subst s1; simpl in *. set_solver.
Qed.

Lemma resolve_dependencies_NoDup fuel name s s' :
  NoDup (all_buildings s) → NoDup (all_units s) →
  resolve_dependencies tree fuel name s = Some s' →
  NoDup (all_buildings s') ∧ NoDup (all_units s').
Proof.
  intros Hb Hu Hrun.
  assert (∀ x l, NoDup l → NoDup (append_if_absent x l)) as Happ.
  { intros x l Hl. unfold append_if_absent. case_decide; [done|].
    apply NoDup_app. split_and!; [done| |apply NoDup_singleton].
    intros y Hy ->%list_elem_of_singleton. done. }
  apply (resolve_dependencies_inv
           (λ t, NoDup (all_buildings t) ∧ NoDup (all_units t)) (λ _, True))
    with fuel name s; simpl; try done; naive_solver.
Qed.

Lemma get_build_requirements_unknown unit_name :
  unit_name ∉ dom tree →
  get_build_requirements tree unit_name
  = Raise (KeyError (unknown_unit_message tree unit_name)).
Proof.
  intros Hdom%not_elem_of_dom. unfold get_build_requirements. by rewrite Hdom.
Qed.

Lemma get_build_requirements_defined unit_name :
  unit_name ∈ dom tree →
  ∃ reqs s,
    tree !! unit_name = Some reqs ∧
    resolve_dependencies tree (S (size (names tree))) unit_name initial_state
    = Some s ∧
    get_build_requirements tree unit_name
    = Return (BuildRequirements (all_buildings s) (all_units s) reqs).
Proof.
  intros Hdom. pose proof Hdom as [reqs Hlook]%elem_of_dom.
  destruct (resolve_dependencies_total (S (size (names tree))) unit_name
              initial_state) as (s & Hrun & _).
  { by apply elem_of_union_l. }
  { simpl. rewrite difference_empty_L. lia. }
  exists reqs, s. split_and!; [done..|].
  unfold get_build_requirements. rewrite Hlook, Hrun. by destruct reqs.
Qed.

Lemma get_build_requirements_Return unit_name r :
  get_build_requirements tree unit_name = Return r → unit_name ∈ dom tree.
Proof.
  unfold get_build_requirements. intros Hrun. apply elem_of_dom.
  destruct (tree !! unit_name); [by eauto|done].
Qed.

Lemma get_build_requirements_NoDup unit_name r :
  get_build_requirements tree unit_name = Return r →
  NoDup (res_buildings r) ∧ NoDup (res_units r).
Proof.
  unfold get_build_requirements. intros Hrun.
  destruct (tree !! unit_name); [|done].
  destruct (resolve_dependencies _ _ _ _) as [s|] eqn:Hs; [|done].
  simplify_eq. simpl.
  eapply resolve_dependencies_NoDup; [| |exact Hs]; apply NoDup_nil_2.
Qed.
Lemma requires_lookup name reqs (x : string) :
  tree !! name = Some reqs → x ∈ buildings reqs ++ units reqs →
  requires tree name x.
Proof. intros Hlook Hx. unfold requires, direct_prerequisites. by rewrite Hlook. Qed.

(** On a table without dangling names, a call on a key only ever visits
    keys and only ever lists keys. *)
Lemma resolve_dependencies_closed fuel name s s' :
  closed_world tree → name ∈ dom tree →
  visited s ⊆ dom tree →
  (∀ x, x ∈ all_buildings s → x ∈ dom tree) →
  (∀ x, x ∈ all_units s → x ∈ dom tree) →
  resolve_dependencies tree fuel name s = Some s' →
  visited s' ⊆ dom tree ∧
  (∀ x, x ∈ all_buildings s' → x ∈ dom tree) ∧
  (∀ x, x ∈ all_units s' → x ∈ dom tree).
Proof.
  intros Hclosed Hname Hv Hb Hu Hrun.
  assert (∀ (x : string) l, x ∈ dom tree → (∀ y, y ∈ l → y ∈ dom tree) →
            ∀ y, y ∈ append_if_absent x l → y ∈ dom tree) as Happ.
  { intros x l Hx Hl y. unfold append_if_absent. case_decide; [by auto|].
    intros [?| ->%list_elem_of_singleton]%elem_of_app; auto. }
  apply (resolve_dependencies_inv
           (λ t, visited t ⊆ dom tree ∧
                 (∀ x, x ∈ all_buildings t → x ∈ dom tree) ∧
                 (∀ x, x ∈ all_units t → x ∈ dom tree))
           (λ x, x ∈ dom tree)) with fuel name s; simpl; try done.
  - intros x t Hx (? & ? & ?). split_and!; [set_solver|done..].
  - intros x t Hx (? & ? & ?). split_and!; [done|by apply Happ|done].
  - intros x t Hx (? & ? & ?). split_and!; [done..|by apply Happ].
  - intros x reqs y _ Hlook Hy. eapply Hclosed, requires_lookup; done.
Qed.

Lemma for_each_sim {S1 S2} (R : S1 → S2 → Prop)
    (body1 : string → S1 → option S1) (body2 : string → S2 → option S2) l :
  (∀ x s1 s2, x ∈ l → R s1 s2 →
     option_Forall2 R (body1 x s1) (body2 x s2)) →
  ∀ s1 s2, R s1 s2 →
    option_Forall2 R (for_each body1 l s1) (for_each body2 l s2).
Proof.
  induction l as [|x l IH]; intros Hbody s1 s2 HR; simpl; [by constructor|].
  destruct (Hbody x s1 s2) as [t1 t2 Ht|]; [left|done| |constructor].
  apply IH; [|done]. intros y u1 u2 Hy. apply Hbody. by right.
Qed.

(** The logged traversal computes the states of [resolve_dependencies],
    and on a table without dangling names a call on a key leaves the log
    as it found it. *)
Lemma resolve_dependencies_guard_log_spec fuel name s log :
  option_Forall2
    (λ sl s', sl.1 = s' ∧ (closed_world tree → name ∈ dom tree → sl.2 = log))
    (resolve_dependencies_guard_log tree fuel name (s, log))
    (resolve_dependencies tree fuel name s).
Proof.
  revert name s log.
  induction fuel as [|fuel IH]; intros name s log; simpl; [constructor|].
  case_decide; [by constructor|].
  destruct (tree !! name) as [reqs|] eqn:Hlook.
  2:{ constructor. split; [done|]. intros _ [? ?]%elem_of_dom. congruence. }
  set (R := λ (sl : state * list string) (t : state),
              sl.1 = t ∧ (closed_world tree → sl.2 = log)).
  assert (∀ x : string, x ∈ buildings reqs ++ units reqs →
            closed_world tree → x ∈ dom tree) as Hchild.
  { intros x Hx Hclosed. eapply Hclosed, requires_lookup; done. }
  match goal with
  | |- option_Forall2 _ (match for_each ?b1 ?l ?a1 with _ => _ end)
                        (match for_each ?b2 _ ?a2 with _ => _ end) =>
      destruct (for_each_sim R b1 b2 l) with a1 a2 as [sl2 s2 HR2|]
  end.
  { intros b [t lg] t' Hb [Ht Hlg]. simpl in Ht, Hlg. subst t'.
    destruct (IH b t lg) as [[t1 lg1] t1' [Ht1 Hlg1]|]; [|constructor].
    simpl in Ht1, Hlg1. subst t1'. constructor. split; [done|].
    intros Hclosed. simpl. rewrite Hlg1, Hlg; [done..|].
    apply Hchild; [set_solver|done]. }
  { by split. }
  2:{ constructor. }
  match goal with
  | |- option_Forall2 _ (for_each ?b1 ?l ?a1) (for_each ?b2 _ ?a2) =>
      destruct (for_each_sim R b1 b2 l) with a1 a2 as [sl3 s3 [HR3 Hlog3]|]
  end.
  { intros u [t lg] t' Hu [Ht Hlg]. simpl in Ht, Hlg. subst t'.
    destruct (IH u t lg) as [[t1 lg1] t1' [Ht1 Hlg1]|]; [|constructor].
    simpl in Ht1, Hlg1. subst t1'. constructor. split; [done|].
    intros Hclosed. simpl. rewrite Hlg1, Hlg; [done..|].
    apply Hchild; [set_solver|done]. }
  { done. }
  - constructor. split; [done|]. auto.
  - constructor.
Qed.

Lemma resolve_dependencies_guard_log_closed fuel name s log s' :
  closed_world tree → name ∈ dom tree →
  resolve_dependencies tree fuel name s = Some s' →
  resolve_dependencies_guard_log tree fuel name (s, log) = Some (s', log).
Proof.
  intros Hclosed Hname Hrun.
  pose proof (resolve_dependencies_guard_log_spec fuel name s log) as Hlog.
  rewrite Hrun in Hlog.
  destruct (resolve_dependencies_guard_log tree fuel name (s, log))
    as [[t lg]|]; [|by inversion Hlog].
  inversion Hlog as [? ? [Ht Hlg]|]. simpl in Ht, Hlg.
  by rewrite Ht, Hlg.
Qed.
End resolver_facts.

(** ** [sorted] *)

Lemma sorted_Permutation l : sorted l ≡ₚ l.
Proof. apply merge_sort_Permutation. Qed.

Lemma sorted_StronglySorted l : StronglySorted String.le (sorted l).
Proof. apply StronglySorted_merge_sort; apply _. Qed.

Lemma elem_of_sorted_elements (X : gset string) x :
  x ∈ sorted (elements X) ↔ x ∈ X.
Proof. by rewrite sorted_Permutation, elem_of_elements. Qed.


(** ** The helper queries on an arbitrary table *)

Section usage_facts.
Variable tree : gmap string requirements.

Lemma first_missing_None build_order available_buildings :
  first_missing build_order available_buildings = None ↔
  ∀ b, b ∈ build_order → b ∈ available_buildings.
Proof.
  induction build_order as [|x l IH]; simpl.
  - split; [|done]. intros _ b Hb. by apply elem_of_nil in Hb.
  - case_decide as Hx.
    + rewrite IH. split; [|by auto using list_elem_of_further].
      intros Hl b [->|?]%elem_of_cons; auto.
    + split; [done|]. intros Hall. destruct Hx. apply Hall. left.
Qed.

Lemma first_missing_Some build_order available_buildings b :
  first_missing build_order available_buildings = Some b →
  ∃ pre post, build_order = pre ++ b :: post ∧ (b ∉ available_buildings) ∧
              (∀ x, x ∈ pre → x ∈ available_buildings).
Proof.
  induction build_order as [|x l IH]; simpl; [done|].
  case_decide as Hx.
  - intros (pre & post & -> & Hb & Hpre)%IH.
    exists (x :: pre), post. split_and!; [done..|].
    intros y [->|?]%elem_of_cons; auto.
  - intros [= ->]. exists [], l. split_and!; [done..|].
    intros y Hy. by apply elem_of_nil in Hy.
Qed.

Lemma can_build_unit_defined unit_name available_buildings r :
  get_build_requirements tree unit_name = Return r →
  can_build_unit tree unit_name available_buildings
  = Return (bool_decide (missing_set r available_buildings = ∅),
            sorted (elements (missing_set r available_buildings))).
Proof.
  intros Hr. unfold can_build_unit. rewrite Hr. simpl. do 2 f_equal.
  apply bool_decide_ext. rewrite size_empty_iff. by unfold_leibniz.
Qed.

Lemma missing_set_empty r available_buildings :
  missing_set r available_buildings = ∅ ↔
  ∀ b, b ∈ res_buildings r → b ∈ available_buildings.
Proof.
  unfold missing_set. split.
  - intros Hempty b Hb. destruct (decide (b ∈ available_buildings)); [done|].
    assert (b ∈ (∅ : gset string)); [|set_solver].
    rewrite <-Hempty. set_solver.
  - intros Hall. apply set_eq. intros b. split; [|set_solver].
    rewrite elem_of_difference, !elem_of_list_to_set. naive_solver.
Qed.

Lemma get_next_building_to_build_defined target_unit available_buildings r :
  get_build_requirements tree target_unit = Return r →
  get_next_building_to_build tree target_unit available_buildings
  = Return (first_missing (res_buildings r) available_buildings).
Proof.
  intros Hr. unfold get_next_building_to_build.
  rewrite (can_build_unit_defined _ _ r Hr). simpl.
  case_bool_decide as Hempty.
  - f_equal. symmetry. apply first_missing_None. by apply missing_set_empty.
  - destruct (sorted _) as [|x l] eqn:Hsorted; [|by rewrite Hr].
    destruct Hempty. apply leibniz_equiv, elements_empty_iff, Permutation_nil_r.
    by rewrite <-Hsorted, sorted_Permutation.
Qed.
Lemma first_missing_elem build_order available_buildings b :
  first_missing build_order available_buildings = Some b →
  b ∈ build_order ∧ b ∉ available_buildings.
Proof.
  intros (pre & post & -> & Hb & _)%first_missing_Some.
  split; [|done]. apply elem_of_app. right. left.
Qed.

Lemma still_missing_le build_order available_buildings :
  still_missing build_order available_buildings ≤ length build_order.
Proof.
  induction build_order as [|x l IH]; simpl; [done|]. case_decide; lia.
Qed.

Lemma still_missing_mono build_order available_buildings b :
  still_missing build_order (available_buildings ++ [b])
  ≤ still_missing build_order available_buildings.
Proof.
  induction build_order as [|x l IH]; simpl; [done|].
  repeat case_decide; try lia. set_solver.
Qed.

(** Appending a building that the order lists and that was not available
    leaves strictly fewer entries of the order missing. *)
Lemma still_missing_shrinks build_order available_buildings b :
  b ∈ build_order → b ∉ available_buildings →
  still_missing build_order (available_buildings ++ [b])
  < still_missing build_order available_buildings.
Proof.
  intros Hb Hav.
  induction build_order as [|x l IH]; simpl; [by apply elem_of_nil in Hb|].
  pose proof (still_missing_mono l available_buildings b) as Hmono.
  apply elem_of_cons in Hb as [<-|Hb].
  - repeat case_decide; try lia; set_solver.
  - specialize (IH Hb). repeat case_decide; try lia. set_solver.
Qed.

Lemma tech_progression_returns target r :
  get_build_requirements tree target = Return r →
  ∀ fuel buildings,
    still_missing (res_buildings r) buildings < fuel →
    ∃ added,
      tech_progression tree fuel target buildings = Return (buildings ++ added) ∧
      length added ≤ still_missing (res_buildings r) buildings ∧
      get_next_building_to_build tree target (buildings ++ added)
      = Return None ∧
      (∀ b, b ∈ added → b ∈ res_buildings r ∧ b ∉ buildings) ∧
      NoDup added.
Proof.
  intros Hr. induction fuel as [|fuel IH]; intros bs Hfuel; [lia|].
  simpl. rewrite (get_next_building_to_build_defined _ _ r Hr). simpl.
  destruct (first_missing (res_buildings r) bs) as [b|] eqn:Hnext.
  - apply first_missing_elem in Hnext as [Hb Hbs].
    pose proof (still_missing_shrinks _ _ _ Hb Hbs) as Hlt.
    destruct (IH (bs ++ [b])) as (added & Hrun & Hlen & Hstop & Hin & Hnd);
      [lia|].
    exists (b :: added).
    replace (bs ++ b :: added) with ((bs ++ [b]) ++ added)
      by (by rewrite <-app_assoc).
    split_and!; [done|simpl; lia|done| |].
    + intros x [->|Hx]%elem_of_cons; [done|].
      destruct (Hin x Hx) as [? Hnot]. split; [done|]. set_solver.
    + apply NoDup_cons. split; [|done].
      intros Hbad. destruct (Hin b Hbad) as [_ Hnot]. set_solver.
  - exists []. rewrite app_nil_r.
    rewrite (get_next_building_to_build_defined _ _ r Hr), Hnext.
    split_and!; [done|simpl; lia|done| |apply NoDup_nil_2].
    intros b Hb. by apply elem_of_nil in Hb.
Qed.
End usage_facts.

(** ** The table *)

Lemma TERRAN_TECH_TREE_lookup E reqs :
  TERRAN_TECH_TREE !! E = Some reqs → (E, reqs) ∈ TERRAN_TECH_TREE_entries.
Proof. apply elem_of_list_to_map_2. Qed.

Lemma TERRAN_TECH_TREE_dom E :
  E ∈ dom TERRAN_TECH_TREE ↔ E ∈ TERRAN_TECH_TREE_entries.*1.
Proof.
  unfold TERRAN_TECH_TREE. by rewrite dom_list_to_map_L, elem_of_list_to_set.
Qed.

Lemma TERRAN_TECH_TREE_entries_NoDup : NoDup TERRAN_TECH_TREE_entries.*1.
Proof. apply (bool_decide_unpack _). vm_compute. exact I. Qed.

Lemma TERRAN_TECH_TREE_closed : closed_world TERRAN_TECH_TREE.
Proof.
  assert (Forall (λ e, Forall (λ B, B ∈ dom TERRAN_TECH_TREE)
                          (buildings e.2 ++ units e.2))
            TERRAN_TECH_TREE_entries) as Hall.
  { apply (bool_decide_unpack _). vm_compute. exact I. }
  intros A B. unfold requires, direct_prerequisites.
  destruct (TERRAN_TECH_TREE !! A) as [reqs|] eqn:Hlook;
    [|intros Hnil%elem_of_nil; destruct Hnil].
  apply TERRAN_TECH_TREE_lookup in Hlook.
  rewrite Forall_forall in Hall. specialize (Hall (A, reqs) Hlook).
  rewrite Forall_forall in Hall. exact (Hall B).
Qed.

Lemma for_all_defined_sound chk :
  for_all_defined chk = true →
  ∀ E, E ∈ dom TERRAN_TECH_TREE →
       ∃ r, get_build_requirements TERRAN_TECH_TREE E = Return r ∧
            chk E r = true.
Proof.
  intros Hchk E HE. apply TERRAN_TECH_TREE_dom in HE.
  apply list_elem_of_fmap in HE as ([E' reqs] & -> & Hin).
  unfold for_all_defined in Hchk. rewrite forallb_forall in Hchk.
  specialize (Hchk (E', reqs) (proj1 (list_elem_of_In _ _) Hin)).
  cbn [fst] in Hchk |- *.
  destruct (get_build_requirements TERRAN_TECH_TREE E') as [r| |];
    [by exists r|discriminate..].
Qed.

(** ** Order of a requirement list *)

Lemma prerequisites_first_from_sound tree whole rest :
  ∀ pre, whole = pre ++ rest →
    prerequisites_first_from tree whole pre rest = true →
    ∀ i X P, rest !! i = Some X → P ∈ direct_prerequisites tree X → P ∈ whole →
             ∃ j, j < length pre + i ∧ whole !! j = Some P.
Proof.
  induction rest as [|Y rest IH]; intros pre Hwhole Hchk i X P Hi HP Hin;
    [by rewrite lookup_nil in Hi|].
  simpl in Hchk. apply andb_true_iff in Hchk as [Hhead Htail].
  destruct i as [|i]; simpl in Hi.
  - simplify_eq. rewrite forallb_forall in Hhead.
    specialize (Hhead P (proj1 (list_elem_of_In _ _) HP)).
    apply bool_decide_eq_true in Hhead.
    apply Hhead, list_elem_of_lookup in Hin as [j Hj].
    exists j. split; [apply lookup_lt_Some in Hj; lia|].
    by apply lookup_app_l_Some.
  - destruct (IH (pre ++ [Y])) with i X P as (j & Hlt & Hj); try done.
    { by rewrite <-app_assoc. }
    exists j. split; [|done]. rewrite length_app in Hlt. simpl in Hlt. lia.
Qed.

Lemma prerequisites_first_check tree l :
  prerequisites_first_from tree l [] l = true → prerequisites_first tree l.
Proof.
  intros Hchk i X P Hi HP Hin.
  by apply (prerequisites_first_from_sound tree l l [] eq_refl Hchk i X P).
Qed.

(** ** The table has no cycle *)

Lemma rank_decreases A B : requires TERRAN_TECH_TREE A B → rank B < rank A.
Proof.
  assert (forallb (λ e, forallb (λ B, rank B <? rank e.1)
                          (buildings e.2 ++ units e.2))
            TERRAN_TECH_TREE_entries = true) as Hall
    by (vm_compute; reflexivity).
  unfold requires, direct_prerequisites.
  destruct (TERRAN_TECH_TREE !! A) as [reqs|] eqn:Hlook;
    [|intros Hnil%elem_of_nil; destruct Hnil].
  apply TERRAN_TECH_TREE_lookup in Hlook.
  rewrite forallb_forall in Hall.
  specialize (Hall (A, reqs) (proj1 (list_elem_of_In _ _) Hlook)).
  rewrite forallb_forall in Hall. intros HB.
  apply Nat.ltb_lt. exact (Hall B (proj1 (list_elem_of_In _ _) HB)).
Qed.

Lemma rank_decreases_tc A B :
  tc (requires TERRAN_TECH_TREE) A B → rank B < rank A.
Proof.
  induction 1 as [A B HAB|A B C HAB _ IH].
  - by apply rank_decreases.
  - apply rank_decreases in HAB. lia.
Qed.

(** The keys are plain names, so that [repr_str] prints them as Python
    does. *)
Lemma TERRAN_TECH_TREE_keys_plain :
  Forall (λ k, plain_name k = true) TERRAN_TECH_TREE_entries.*1.
Proof. apply (bool_decide_unpack _). vm_compute. exact I. Qed.

(** ** The traversal on two small tables *)

(** In a diamond the shared building is listed once. *)
Example diamond_once :
  ∃ r, get_build_requirements diamond_tree "C" = Return r ∧
       res_buildings r = ["S"; "A"; "B"].
Proof. eexists. split; [vm_compute; reflexivity|reflexivity]. Qed.

(** The order of a list depends on the table: when a name is a unit
    prerequisite of one record and a building prerequisite of another, it
    can be listed after the entry that needs it. *)
Example order_needs_the_table :
  ∃ r, get_build_requirements mixed_tree "Y" = Return r ∧
       res_buildings r = ["X"; "U"] ∧
       ¬ prerequisites_first mixed_tree (res_buildings r).
Proof.
  eexists. split; [vm_compute; reflexivity|]. split; [reflexivity|].
  intros Hfirst. cbn [res_buildings] in Hfirst.
  destruct (Hfirst 0 "X" "U") as (j & Hj & _); [reflexivity| | |lia].
  - apply (bool_decide_unpack _). vm_compute. exact I.
  - apply (bool_decide_unpack _). vm_compute. exact I.
Qed.

#[local] Opaque TERRAN_TECH_TREE.

(** * The claims *)

(** C1. For every defined entity [E], the [buildings] and [units] lists that
    [get_build_requirements] returns have no duplicates, and in each of them
    every direct prerequisite of an entry that is in the list stands before
    that entry. *)
Theorem requirement_lists_dedup_ordered E :
  E ∈ dom TERRAN_TECH_TREE →
  ∃ r, get_build_requirements TERRAN_TECH_TREE E = Return r ∧
       NoDup (res_buildings r) ∧ NoDup (res_units r) ∧
       prerequisites_first TERRAN_TECH_TREE (res_buildings r) ∧
       prerequisites_first TERRAN_TECH_TREE (res_units r).
Proof.
  intros HE.
  assert (for_all_defined
            (λ _ r,
               prerequisites_first_from TERRAN_TECH_TREE
                 (res_buildings r) [] (res_buildings r)
               && prerequisites_first_from TERRAN_TECH_TREE
                    (res_units r) [] (res_units r)) = true) as Hall
    by (vm_compute; reflexivity).
  destruct (for_all_defined_sound _ Hall E HE) as (r & Hr & Hchk).
  apply andb_true_iff in Hchk as [Hb Hu].
  destruct (get_build_requirements_NoDup _ _ _ Hr) as [Hnb Hnu].
  exists r. split_and!; auto using prerequisites_first_check.
Qed.

Lemma requirement_lists_dedup_ordered_witness :
  "Battlecruiser" ∈ dom TERRAN_TECH_TREE ∧
  ∃ r, get_build_requirements TERRAN_TECH_TREE "Battlecruiser" = Return r ∧
       NoDup (res_buildings r) ∧ NoDup (res_units r) ∧
       prerequisites_first TERRAN_TECH_TREE (res_buildings r) ∧
       prerequisites_first TERRAN_TECH_TREE (res_units r).
Proof.
  assert ("Battlecruiser" ∈ dom TERRAN_TECH_TREE) as HE
    by (apply (bool_decide_unpack _); vm_compute; exact I).
  split; [exact HE|]. exact (requirement_lists_dedup_ordered "Battlecruiser" HE).
Defined.

(** C2. [get_build_requirements("Battlecruiser")] returns the [buildings]
    list SupplyDepot, Barracks, Factory, Starport, StarportTechLab,
    FusionCore, in this order. *)
Theorem battlecruiser_buildings :
  ∃ r, get_build_requirements TERRAN_TECH_TREE "Battlecruiser" = Return r ∧
       res_buildings r
       = ["SupplyDepot"; "Barracks"; "Factory"; "Starport"; "StarportTechLab";
          "FusionCore"].
Proof. eexists. split; [vm_compute; reflexivity|reflexivity]. Qed.



(** C5. For a name that is not a key of the table, [can_build_unit] does not
    raise: it returns [False] and a list with the one entry
    ["Unknown unit: <name>"], whatever the available buildings are. *)
Theorem can_build_unit_unknown (unit_name : string)
    (available_buildings : list string) :
  unit_name ∉ dom TERRAN_TECH_TREE →
  can_build_unit TERRAN_TECH_TREE unit_name available_buildings
  = Return (false, ["Unknown unit: " +:+ unit_name]).
Proof.
  intros HE. unfold can_build_unit.
  by rewrite get_build_requirements_unknown.
Qed.

Lemma can_build_unit_unknown_witness :
  ("UnknownThing" ∉ dom TERRAN_TECH_TREE) ∧
  can_build_unit TERRAN_TECH_TREE "UnknownThing" ["CommandCenter"]
  = Return (false, ["Unknown unit: " +:+ "UnknownThing"]).
Proof.
  assert ("UnknownThing" ∉ dom TERRAN_TECH_TREE) as HE
    by (apply (bool_decide_unpack _); vm_compute; exact I).
  split; [exact HE|].
  exact (can_build_unit_unknown "UnknownThing" ["CommandCenter"] HE).
Defined.

(** C6. For every entity [E] with record [reqs] in the table, the
    [immediate] part of the result holds the [buildings] list and the
    [units] list of [reqs] as they are declared. *)
Theorem immediate_is_declared E reqs :
  TERRAN_TECH_TREE !! E = Some reqs →
  ∃ r, get_build_requirements TERRAN_TECH_TREE E = Return r ∧
       buildings (res_immediate r) = buildings reqs ∧
       units (res_immediate r) = units reqs.
Proof.
  intros Hlook.
  destruct (get_build_requirements_defined TERRAN_TECH_TREE E)
    as (reqs' & s & Hlook' & _ & Hr).
  { apply elem_of_dom. by exists reqs. }
  rewrite Hlook in Hlook'. injection Hlook' as <-.
  eexists. split; [exact Hr|]. split; reflexivity.
Qed.

Lemma immediate_is_declared_witness :
  TERRAN_TECH_TREE !! "AutoTurret"
  = Some (Requirements ["Starport"; "StarportTechLab"] ["Raven"]) ∧
  ∃ r, get_build_requirements TERRAN_TECH_TREE "AutoTurret" = Return r ∧
       buildings (res_immediate r) = ["Starport"; "StarportTechLab"] ∧
       units (res_immediate r) = ["Raven"].
Proof.
  assert (TERRAN_TECH_TREE !! "AutoTurret"
          = Some (Requirements ["Starport"; "StarportTechLab"] ["Raven"]))
    as Hlook by (vm_compute; reflexivity).
  split; [exact Hlook|].
  exact (immediate_is_declared "AutoTurret" _ Hlook).
Defined.

(** C4. For every defined target and every list of available buildings,
    [can_build_unit] returns [True] exactly when no building of the
    [buildings] list is outside the available ones, together with the
    buildings that are outside, each once, in sorted order.  For Marine it
    returns [(False, ["Barracks", "SupplyDepot"])] when only CommandCenter
    is available and [(True, [])] when CommandCenter, SupplyDepot and
    Barracks are. *)
Theorem can_build_unit_missing :
  (∀ target available_buildings,
     target ∈ dom TERRAN_TECH_TREE →
     ∃ r can_build missing,
       get_build_requirements TERRAN_TECH_TREE target = Return r ∧
       can_build_unit TERRAN_TECH_TREE target available_buildings
       = Return (can_build, missing) ∧
       (can_build = true ↔
        (list_to_set (res_buildings r) ∖ list_to_set available_buildings
         : gset string) = ∅) ∧
       missing ≡ₚ elements
                    (list_to_set (res_buildings r) ∖ list_to_set available_buildings
                     : gset string) ∧
       StronglySorted String.le missing) ∧
  can_build_unit TERRAN_TECH_TREE "Marine" ["CommandCenter"]
  = Return (false, ["Barracks"; "SupplyDepot"]) ∧
  can_build_unit TERRAN_TECH_TREE "Marine"
    ["CommandCenter"; "SupplyDepot"; "Barracks"]
  = Return (true, []).
Proof.
  split_and!; [|vm_compute; reflexivity..].
  intros target available_buildings HE.
  destruct (get_build_requirements_defined _ _ HE) as (reqs & s & _ & _ & Hr).
  eexists _, _, _. split; [exact Hr|].
  split; [exact (can_build_unit_defined _ _ _ _ Hr)|].
  split_and!.
  - apply bool_decide_eq_true.
  - apply sorted_Permutation.
  - apply sorted_StronglySorted.
Qed.

Lemma can_build_unit_missing_witness :
  "Marine" ∈ dom TERRAN_TECH_TREE ∧
  ∃ r can_build missing,
    get_build_requirements TERRAN_TECH_TREE "Marine" = Return r ∧
    can_build_unit TERRAN_TECH_TREE "Marine" ["CommandCenter"]
    = Return (can_build, missing) ∧
    (can_build = true ↔
     (list_to_set (res_buildings r) ∖ list_to_set ["CommandCenter"]
      : gset string) = ∅) ∧
    missing ≡ₚ elements
                 (list_to_set (res_buildings r) ∖ list_to_set ["CommandCenter"]
                  : gset string) ∧
    StronglySorted String.le missing.
Proof.
  assert ("Marine" ∈ dom TERRAN_TECH_TREE) as HE
    by (apply (bool_decide_unpack _); vm_compute; exact I).
  split; [exact HE|].
  exact (proj1 can_build_unit_missing "Marine" ["CommandCenter"] HE).
Defined.

(** C7. For every defined target and every list of available buildings,
    [get_next_building_to_build] returns the first entry of the [buildings]
    list that is not available, and [None] when every entry is available. *)
Theorem next_building_is_first_missing target available_buildings :
  target ∈ dom TERRAN_TECH_TREE →
  ∃ r,
    get_build_requirements TERRAN_TECH_TREE target = Return r ∧
    ((get_next_building_to_build TERRAN_TECH_TREE target available_buildings
      = Return None ∧
      (∀ b, b ∈ res_buildings r → b ∈ available_buildings)) ∨
     (∃ pre b post,
        res_buildings r = pre ++ b :: post ∧
        get_next_building_to_build TERRAN_TECH_TREE target available_buildings
        = Return (Some b) ∧
        (b ∉ available_buildings) ∧
        (∀ x, x ∈ pre → x ∈ available_buildings))).
Proof.
  intros HE.
  destruct (get_build_requirements_defined _ _ HE) as (reqs & s & _ & _ & Hr).
  eexists. split; [exact Hr|].
  rewrite (get_next_building_to_build_defined _ _ _ _ Hr).
  destruct (first_missing _ available_buildings) as [b|] eqn:Hnext.
  - right. apply first_missing_Some in Hnext as (pre & post & Heq & Hb & Hpre).
    exists pre, b, post. split_and!; [exact Heq|reflexivity|exact Hb|exact Hpre].
  - left. split; [reflexivity|]. by apply first_missing_None.
Qed.

Lemma next_building_is_first_missing_witness :
  "SiegeTank" ∈ dom TERRAN_TECH_TREE ∧
  ∃ r,
    get_build_requirements TERRAN_TECH_TREE "SiegeTank" = Return r ∧
    ((get_next_building_to_build TERRAN_TECH_TREE "SiegeTank"
        ["SupplyDepot"; "Barracks"; "CommandCenter"]
      = Return None ∧
      (∀ b, b ∈ res_buildings r →
            b ∈ ["SupplyDepot"; "Barracks"; "CommandCenter"])) ∨
     (∃ pre b post,
        res_buildings r = pre ++ b :: post ∧
        get_next_building_to_build TERRAN_TECH_TREE "SiegeTank"
          ["SupplyDepot"; "Barracks"; "CommandCenter"]
        = Return (Some b) ∧
        (b ∉ ["SupplyDepot"; "Barracks"; "CommandCenter"]) ∧
        (∀ x, x ∈ pre → x ∈ ["SupplyDepot"; "Barracks"; "CommandCenter"]))).
Proof.
  assert ("SiegeTank" ∈ dom TERRAN_TECH_TREE) as HE
    by (apply (bool_decide_unpack _); vm_compute; exact I).
  split; [exact HE|].
  exact (next_building_is_first_missing "SiegeTank"
           ["SupplyDepot"; "Barracks"; "CommandCenter"] HE).
Defined.

(** C8. For every defined entity [E], neither the [buildings] list nor the
    [units] list of [get_build_requirements(E)] holds [E]; and the table has
    no cycle: no name requires itself through one or more records. *)
Theorem no_self_requirement :
  (∀ E, E ∈ dom TERRAN_TECH_TREE →
        ∃ r, get_build_requirements TERRAN_TECH_TREE E = Return r ∧
             (E ∉ res_buildings r) ∧ (E ∉ res_units r)) ∧
  (∀ X, ¬ tc (requires TERRAN_TECH_TREE) X X).
Proof.
  split.
  - intros E HE.
    assert (for_all_defined
              (λ E r, bool_decide ((E ∉ res_buildings r) ∧ (E ∉ res_units r)))
            = true) as Hall by (vm_compute; reflexivity).
    destruct (for_all_defined_sound _ Hall E HE) as (r & Hr & Hchk).
    apply bool_decide_eq_true in Hchk. exists r. split; [exact Hr|exact Hchk].
  - intros X HX%rank_decreases_tc. lia.
Qed.

Lemma no_self_requirement_witness :
  "Battlecruiser" ∈ dom TERRAN_TECH_TREE ∧
  ∃ r, get_build_requirements TERRAN_TECH_TREE "Battlecruiser" = Return r ∧
       ("Battlecruiser" ∉ res_buildings r) ∧ ("Battlecruiser" ∉ res_units r).
Proof.
  assert ("Battlecruiser" ∈ dom TERRAN_TECH_TREE) as HE
    by (apply (bool_decide_unpack _); vm_compute; exact I).
  split; [exact HE|].
  exact (proj1 no_self_requirement "Battlecruiser" HE).
Defined.

(** C9. Every name listed in a record of the table is a key of the table.
    Hence, for a defined entity [E], the traversal never takes the early
    [return] under [if name not in TERRAN_TECH_TREE] (the logged traversal
    ends with the states of [get_build_requirements] and an empty log), it
    visits keys only, and every entry of the [buildings] and [units] lists
    is a key. *)
Theorem closed_world_guard_unreachable :
  closed_world TERRAN_TECH_TREE ∧
  (∀ E, E ∈ dom TERRAN_TECH_TREE →
     ∃ r s,
       get_build_requirements TERRAN_TECH_TREE E = Return r ∧
       resolve_dependencies_guard_log TERRAN_TECH_TREE
         (S (size (names TERRAN_TECH_TREE))) E (initial_state, [])
       = Some (s, []) ∧
       all_buildings s = res_buildings r ∧
       all_units s = res_units r ∧
       visited s ⊆ dom TERRAN_TECH_TREE ∧
       (∀ x, x ∈ res_buildings r → x ∈ dom TERRAN_TECH_TREE) ∧
       (∀ x, x ∈ res_units r → x ∈ dom TERRAN_TECH_TREE)).
Proof.
  split; [exact TERRAN_TECH_TREE_closed|].
  intros E HE.
  destruct (get_build_requirements_defined _ _ HE) as (reqs & s & _ & Hrun & Hr).
  pose proof (resolve_dependencies_guard_log_closed TERRAN_TECH_TREE
                _ E initial_state [] s TERRAN_TECH_TREE_closed HE Hrun) as Hlog.
  destruct (resolve_dependencies_closed TERRAN_TECH_TREE
              (S (size (names TERRAN_TECH_TREE))) E initial_state s
              TERRAN_TECH_TREE_closed HE) as (Hv & Hb & Hu);
    [apply empty_subseteq|intros x Hx%elem_of_nil; destruct Hx..|exact Hrun|].
  exists (BuildRequirements (all_buildings s) (all_units s) reqs), s.
  split_and!; [exact Hr|exact Hlog|reflexivity|reflexivity|exact Hv|exact Hb|exact Hu].
Qed.

Lemma closed_world_guard_unreachable_witness :
  "AutoTurret" ∈ dom TERRAN_TECH_TREE ∧
  ∃ r s,
    get_build_requirements TERRAN_TECH_TREE "AutoTurret" = Return r ∧
    resolve_dependencies_guard_log TERRAN_TECH_TREE
      (S (size (names TERRAN_TECH_TREE))) "AutoTurret" (initial_state, [])
    = Some (s, []) ∧
    all_buildings s = res_buildings r ∧
    all_units s = res_units r ∧
    visited s ⊆ dom TERRAN_TECH_TREE ∧
    (∀ x, x ∈ res_buildings r → x ∈ dom TERRAN_TECH_TREE) ∧
    (∀ x, x ∈ res_units r → x ∈ dom TERRAN_TECH_TREE).
Proof.
  assert ("AutoTurret" ∈ dom TERRAN_TECH_TREE) as HE
    by (apply (bool_decide_unpack _); vm_compute; exact I).
  split; [exact HE|].
  exact (proj2 closed_world_guard_unreachable "AutoTurret" HE).
Defined.

(** C10. For every defined target and every list of buildings to start
    from, the loop that asks [get_next_building_to_build] for a building and
    appends it stops: within one more round than the [buildings] list of the
    target is long it reaches a list for which the answer is [None], having
    appended at most that many names, each of them an entry of the
    [buildings] list that was not available, none twice.  Every answer is an
    entry of the [buildings] list that is not yet available, and appending
    it leaves strictly fewer entries missing. *)
Theorem tech_progression_terminates target start :
  target ∈ dom TERRAN_TECH_TREE →
  ∃ r added,
    get_build_requirements TERRAN_TECH_TREE target = Return r ∧
    tech_progression TERRAN_TECH_TREE (S (length (res_buildings r))) target start
    = Return (start ++ added) ∧
    length added ≤ length (res_buildings r) ∧
    get_next_building_to_build TERRAN_TECH_TREE target (start ++ added)
    = Return None ∧
    (∀ b, b ∈ added → b ∈ res_buildings r ∧ b ∉ start) ∧
    NoDup added ∧
    (∀ available_buildings b,
       get_next_building_to_build TERRAN_TECH_TREE target available_buildings
       = Return (Some b) →
       b ∈ res_buildings r ∧ (b ∉ available_buildings) ∧
       still_missing (res_buildings r) (available_buildings ++ [b])
       < still_missing (res_buildings r) available_buildings).
Proof.
  intros HE.
  destruct (get_build_requirements_defined _ _ HE) as (reqs & s & _ & _ & Hr).
  pose proof (still_missing_le (res_buildings
                (BuildRequirements (all_buildings s) (all_units s) reqs)) start)
    as Hle.
  destruct (tech_progression_returns TERRAN_TECH_TREE target _ Hr
              (S (length (all_buildings s))) start)
    as (added & Hrun & Hlen & Hstop & Hin & Hnd); [cbn [res_buildings] in *; lia|].
  eexists _, added. split; [exact Hr|].
  split_and!; [exact Hrun|cbn [res_buildings] in *; lia|exact Hstop|exact Hin
              |exact Hnd|].
  intros available_buildings b.
  rewrite (get_next_building_to_build_defined _ _ _ _ Hr).
  intros [= [Hb Hnot]%first_missing_elem].
  split_and!; [exact Hb|exact Hnot|exact (still_missing_shrinks _ _ _ Hb Hnot)].
Qed.

Lemma tech_progression_terminates_witness :
  "Thor" ∈ dom TERRAN_TECH_TREE ∧
  ∃ r added,
    get_build_requirements TERRAN_TECH_TREE "Thor" = Return r ∧
    tech_progression TERRAN_TECH_TREE (S (length (res_buildings r))) "Thor"
      ["CommandCenter"]
    = Return (["CommandCenter"] ++ added) ∧
    length added ≤ length (res_buildings r) ∧
    get_next_building_to_build TERRAN_TECH_TREE "Thor"
      (["CommandCenter"] ++ added)
    = Return None ∧
    (∀ b, b ∈ added → b ∈ res_buildings r ∧ b ∉ ["CommandCenter"]) ∧
    NoDup added ∧
    (∀ available_buildings b,
       get_next_building_to_build TERRAN_TECH_TREE "Thor" available_buildings
       = Return (Some b) →
       b ∈ res_buildings r ∧ (b ∉ available_buildings) ∧
       still_missing (res_buildings r) (available_buildings ++ [b])
       < still_missing (res_buildings r) available_buildings).
Proof.
  assert ("Thor" ∈ dom TERRAN_TECH_TREE) as HE
    by (apply (bool_decide_unpack _); vm_compute; exact I).
  split; [exact HE|].
  exact (tech_progression_terminates "Thor" ["CommandCenter"] HE).
Defined.


(** * Further properties *)

(** ** [get_tech_path] and how the helper queries fit together *)

Section tech_path_facts.
Variable tree : gmap string requirements.

Lemma tech_path_loop_filter all_required (start_buildings : list string)
    tech_path :
  tech_path_loop all_required (list_to_set start_buildings) tech_path
  = tech_path ++ filter (λ b, b ∉ start_buildings) all_required.
Proof.
  revert tech_path.
  induction all_required as [|b l IH]; intros tech_path; simpl.
  - by rewrite app_nil_r.
  - rewrite IH. rewrite filter_cons.
    destruct (decide (b ∈ (list_to_set start_buildings : gset string)))
      as [Hin|Hin]; rewrite elem_of_list_to_set in Hin;
      destruct (decide (b ∉ start_buildings)); try done.
    by rewrite <-app_assoc.
Qed.

Lemma get_tech_path_defined start_buildings target_unit r :
  get_build_requirements tree target_unit = Return r →
  get_tech_path tree start_buildings target_unit
  = Return (filter (λ b, b ∉ start_buildings) (res_buildings r)).
Proof.
  intros Hr. unfold get_tech_path. rewrite Hr. simpl.
  by rewrite tech_path_loop_filter.
Qed.

Lemma first_missing_head build_order (available_buildings : list string) :
  first_missing build_order available_buildings
  = head (filter (λ b, b ∉ available_buildings) build_order).
Proof.
  induction build_order as [|x l IH]; simpl; [done|].
  rewrite filter_cons.
  destruct (decide (x ∈ available_buildings));
    destruct (decide (x ∉ available_buildings)); done.
Qed.

Lemma filter_after_first build_order (available_buildings : list string) b rest :
  NoDup build_order →
  filter (λ x, x ∉ available_buildings) build_order = b :: rest →
  filter (λ x, x ∉ available_buildings ++ [b]) build_order = rest.
Proof.
  intros Hnd Hfilter.
  assert (NoDup (b :: rest)) as [Hb _]%NoDup_cons
    by (rewrite <-Hfilter; by apply NoDup_filter).
  assert (∀ x, x ∈ rest → x ∉ available_buildings ++ [b]) as Hrest.
  { intros x Hx.
    assert (x ∈ filter (λ x, x ∉ available_buildings) build_order) as Hin
      by (rewrite Hfilter; by right).
    apply list_elem_of_filter in Hin as [Hnot _].
    intros [?| ->%list_elem_of_singleton]%elem_of_app; done. }
  rewrite <-(list_filter_filter_l (λ x, x ∉ available_buildings ++ [b])
               (λ x, x ∉ available_buildings) build_order) by set_solver.
  rewrite Hfilter, filter_cons_False by set_solver.
  clear Hfilter Hnd Hb. induction rest as [|y l IH]; [done|].
  rewrite filter_cons_True by (apply Hrest; left).
  f_equal. apply IH. intros x Hx. apply Hrest. by right.
Qed.

Lemma tech_progression_filter target r :
  get_build_requirements tree target = Return r →
  ∀ fuel buildings,
    still_missing (res_buildings r) buildings < fuel →
    tech_progression tree fuel target buildings
    = Return (buildings ++ filter (λ b, b ∉ buildings) (res_buildings r)).
Proof.
  intros Hr.
  destruct (get_build_requirements_NoDup _ _ _ Hr) as [Hnd _].
  induction fuel as [|fuel IH]; intros bs Hfuel; [lia|].
  simpl. rewrite (get_next_building_to_build_defined _ _ _ r Hr). simpl.
  rewrite first_missing_head.
  destruct (filter (λ b, b ∉ bs) (res_buildings r)) as [|b rest] eqn:Hfilter;
    simpl; [by rewrite app_nil_r|].
  assert (b ∈ res_buildings r ∧ b ∉ bs) as [Hb Hbs].
  { assert (b ∈ filter (λ b, b ∉ bs) (res_buildings r)) as Hin
      by (rewrite Hfilter; left).
    apply list_elem_of_filter in Hin. tauto. }
  pose proof (still_missing_shrinks _ _ _ Hb Hbs) as Hlt.
  rewrite IH by lia.
  rewrite (filter_after_first _ _ _ _ Hnd Hfilter).
  by rewrite <-app_assoc.
Qed.

(** X1. [get_tech_path] does not catch the error of
    [get_build_requirements]: for a name that is not a key it raises the
    same [KeyError]. *)
Theorem get_tech_path_unknown start_buildings target_unit :
  target_unit ∉ dom tree →
  get_tech_path tree start_buildings target_unit
  = Raise (KeyError (unknown_unit_message tree target_unit)).
Proof.
  intros HE. unfold get_tech_path.
  by rewrite get_build_requirements_unknown.
Qed.

(** X2. For a name that is not a key, [get_next_building_to_build] raises
    [KeyError]: [can_build_unit] answers [(False, [sentinel])], the list is
    not empty, and the second call of [get_build_requirements] is not
    guarded.  The loop of the step-by-step example raises with it. *)
Theorem get_next_building_to_build_unknown target_unit available_buildings :
  target_unit ∉ dom tree →
  get_next_building_to_build tree target_unit available_buildings
  = Raise (KeyError (unknown_unit_message tree target_unit)) ∧
  ∀ fuel, tech_progression tree (S fuel) target_unit available_buildings
          = Raise (KeyError (unknown_unit_message tree target_unit)).
Proof.
  intros HE.
  assert (get_next_building_to_build tree target_unit available_buildings
          = Raise (KeyError (unknown_unit_message tree target_unit))) as Hnext.
  { unfold get_next_building_to_build, can_build_unit.
    by rewrite get_build_requirements_unknown. }
  split; [done|]. intros fuel. simpl. by rewrite Hnext.
Qed.

(** X3. For a defined target, [get_tech_path] returns the entries of the
    [buildings] list that are not in [start_buildings]: in the order of
    that list, each once, and no other name. *)
Theorem get_tech_path_exact start_buildings target_unit :
  target_unit ∈ dom tree →
  ∃ r path,
    get_build_requirements tree target_unit = Return r ∧
    get_tech_path tree start_buildings target_unit = Return path ∧
    path `sublist_of` res_buildings r ∧
    (∀ b, b ∈ path ↔ b ∈ res_buildings r ∧ b ∉ start_buildings) ∧
    NoDup path.
Proof.
  intros HE.
  destruct (get_build_requirements_defined _ _ HE) as (reqs & s & _ & _ & Hr).
  destruct (get_build_requirements_NoDup _ _ _ Hr) as [Hnd _].
  eexists _, _. split; [exact Hr|].
  split; [exact (get_tech_path_defined start_buildings _ _ Hr)|].
  split_and!.
  - apply sublist_filter.
  - intros b. rewrite list_elem_of_filter. tauto.
  - by apply NoDup_filter.
Qed.

(** X4. For a defined target the three queries agree: the answer of
    [get_next_building_to_build] is the first entry of the tech path
    ([None] for the empty path), the [missing] list of [can_build_unit] is
    the tech path sorted, and [can_build_unit] says [True] exactly when the
    tech path is empty. *)
Theorem queries_agree target_unit available_buildings :
  target_unit ∈ dom tree →
  ∃ path can_build missing,
    get_tech_path tree available_buildings target_unit = Return path ∧
    can_build_unit tree target_unit available_buildings
    = Return (can_build, missing) ∧
    get_next_building_to_build tree target_unit available_buildings
    = Return (head path) ∧
    missing = sorted path ∧
    (can_build = true ↔ path = []).
Proof.
  intros HE.
  destruct (get_build_requirements_defined _ _ HE) as (reqs & s & _ & _ & Hr).
  destruct (get_build_requirements_NoDup _ _ _ Hr) as [Hnd _].
  set (r := BuildRequirements (all_buildings s) (all_units s) reqs) in *.
  assert (filter (λ b, b ∉ available_buildings) (res_buildings r)
          ≡ₚ elements (missing_set r available_buildings)) as Hperm.
  { apply NoDup_Permutation; [by apply NoDup_filter|apply NoDup_elements|].
    intros b. rewrite list_elem_of_filter, elem_of_elements.
    unfold missing_set. rewrite elem_of_difference, !elem_of_list_to_set.
    tauto. }
  eexists _, _, _. split; [exact (get_tech_path_defined _ _ _ Hr)|].
  split; [exact (can_build_unit_defined _ _ _ _ Hr)|].
  split_and!.
  - rewrite (get_next_building_to_build_defined _ _ _ _ Hr).
    by rewrite first_missing_head.
  - apply (StronglySorted_unique String.le);
      [apply sorted_StronglySorted..|].
    by rewrite !sorted_Permutation.
  - rewrite bool_decide_eq_true. split.
    + intros Hempty. apply Permutation_nil_r.
      by rewrite Hperm, Hempty, elements_empty.
    + intros Hnil. rewrite Hnil in Hperm.
      apply leibniz_equiv, elements_empty_iff. symmetry.
      by apply Permutation_nil_l.
Qed.

(** X5. For a defined target, the loop of the step-by-step example appends
    exactly the tech path, entry by entry in its order. *)
Theorem tech_progression_is_tech_path start_buildings target_unit :
  target_unit ∈ dom tree →
  ∃ r path,
    get_build_requirements tree target_unit = Return r ∧
    get_tech_path tree start_buildings target_unit = Return path ∧
    tech_progression tree (S (length (res_buildings r))) target_unit
      start_buildings
    = Return (start_buildings ++ path).
Proof.
  intros HE.
  destruct (get_build_requirements_defined _ _ HE) as (reqs & s & _ & _ & Hr).
  eexists _, _. split; [exact Hr|].
  split; [exact (get_tech_path_defined start_buildings _ _ Hr)|].
  apply (tech_progression_filter _ _ Hr).
  pose proof (still_missing_le
                (res_buildings
                   (BuildRequirements (all_buildings s) (all_units s) reqs))
                start_buildings). lia.
Qed.

(** X6. For a defined target, once the buildings of the tech path are
    available beside the ones it was computed from (and any others),
    [can_build_unit] answers [(True, [])]. *)
Theorem tech_path_makes_buildable start_buildings target_unit :
  target_unit ∈ dom tree →
  ∃ path,
    get_tech_path tree start_buildings target_unit = Return path ∧
    ∀ more,
      can_build_unit tree target_unit (start_buildings ++ path ++ more)
      = Return (true, []).
Proof.
  intros HE.
  destruct (get_build_requirements_defined _ _ HE) as (reqs & s & _ & _ & Hr).
  eexists. split; [exact (get_tech_path_defined start_buildings _ _ Hr)|].
  intros more. rewrite (can_build_unit_defined _ _ _ _ Hr).
  rewrite (proj2 (missing_set_empty _ _)); [by rewrite elements_empty|].
  intros b Hb.
  destruct (decide (b ∈ start_buildings)); [set_solver|].
  apply elem_of_app. right. apply elem_of_app. left.
  by apply list_elem_of_filter.
Qed.

(** X7. [can_build_unit] reads the available buildings as a set, and more
    buildings never hurt: when every building of one list is in another,
    the second [missing] list is within the first, and [True] stays
    [True]. *)
Theorem can_build_unit_monotone unit_name
    (available1 available2 : list string) can1 missing1 :
  (∀ b, b ∈ available1 → b ∈ available2) →
  can_build_unit tree unit_name available1 = Return (can1, missing1) →
  ∃ can2 missing2,
    can_build_unit tree unit_name available2 = Return (can2, missing2) ∧
    (∀ b, b ∈ missing2 → b ∈ missing1) ∧
    (can1 = true → can2 = true) ∧
    ((∀ b, b ∈ available2 → b ∈ available1) →
     can2 = can1 ∧ missing2 = missing1).
Proof.
  intros Hsub Hrun. unfold can_build_unit in *.
  destruct (get_build_requirements tree unit_name) as [r|[msg]|]; [| |done].
  - simpl in *. injection Hrun as <- <-. eexists _, _. split; [reflexivity|].
    split_and!.
    + intros b. rewrite !elem_of_sorted_elements. set_solver.
    + rewrite !bool_decide_eq_true, !size_empty_iff. set_solver.
    + intros Hsup.
      assert ((list_to_set available2 : gset string) = list_to_set available1)
        as -> by set_solver.
      done.
  - injection Hrun as <- <-. eexists _, _. split; [reflexivity|]. done.
Qed.
End tech_path_facts.

Lemma get_tech_path_unknown_witness :
  ("UnknownThing" ∉ dom TERRAN_TECH_TREE) ∧
  get_tech_path TERRAN_TECH_TREE ["CommandCenter"] "UnknownThing"
  = Raise (KeyError (unknown_unit_message TERRAN_TECH_TREE "UnknownThing")).
Proof.
  assert ("UnknownThing" ∉ dom TERRAN_TECH_TREE) as HE
    by (apply (bool_decide_unpack _); vm_compute; exact I).
  split; [exact HE|].
  exact (get_tech_path_unknown TERRAN_TECH_TREE ["CommandCenter"]
           "UnknownThing" HE).
Defined.

Lemma get_next_building_to_build_unknown_witness :
  ("UnknownThing" ∉ dom TERRAN_TECH_TREE) ∧
  get_next_building_to_build TERRAN_TECH_TREE "UnknownThing" ["CommandCenter"]
  = Raise (KeyError (unknown_unit_message TERRAN_TECH_TREE "UnknownThing")) ∧
  ∀ fuel, tech_progression TERRAN_TECH_TREE (S fuel) "UnknownThing"
            ["CommandCenter"]
          = Raise (KeyError (unknown_unit_message TERRAN_TECH_TREE
                               "UnknownThing")).
Proof.
  assert ("UnknownThing" ∉ dom TERRAN_TECH_TREE) as HE
    by (apply (bool_decide_unpack _); vm_compute; exact I).
  split; [exact HE|].
  exact (get_next_building_to_build_unknown TERRAN_TECH_TREE "UnknownThing"
           ["CommandCenter"] HE).
Defined.

Lemma get_tech_path_exact_witness :
  "Battlecruiser" ∈ dom TERRAN_TECH_TREE ∧
  ∃ r path,
    get_build_requirements TERRAN_TECH_TREE "Battlecruiser" = Return r ∧
    get_tech_path TERRAN_TECH_TREE
      ["SupplyDepot"; "Barracks"; "Factory"; "CommandCenter"] "Battlecruiser"
    = Return path ∧
    path `sublist_of` res_buildings r ∧
    (∀ b, b ∈ path ↔
          b ∈ res_buildings r ∧
          b ∉ ["SupplyDepot"; "Barracks"; "Factory"; "CommandCenter"]) ∧
    NoDup path.
Proof.
  assert ("Battlecruiser" ∈ dom TERRAN_TECH_TREE) as HE
    by (apply (bool_decide_unpack _); vm_compute; exact I).
  split; [exact HE|].
  exact (get_tech_path_exact TERRAN_TECH_TREE
           ["SupplyDepot"; "Barracks"; "Factory"; "CommandCenter"]
           "Battlecruiser" HE).
Defined.

Lemma queries_agree_witness :
  "SiegeTank" ∈ dom TERRAN_TECH_TREE ∧
  ∃ path can_build missing,
    get_tech_path TERRAN_TECH_TREE
      ["SupplyDepot"; "Barracks"; "CommandCenter"] "SiegeTank"
    = Return path ∧
    can_build_unit TERRAN_TECH_TREE "SiegeTank"
      ["SupplyDepot"; "Barracks"; "CommandCenter"]
    = Return (can_build, missing) ∧
    get_next_building_to_build TERRAN_TECH_TREE "SiegeTank"
      ["SupplyDepot"; "Barracks"; "CommandCenter"]
    = Return (head path) ∧
    missing = sorted path ∧
    (can_build = true ↔ path = []).
Proof.
  assert ("SiegeTank" ∈ dom TERRAN_TECH_TREE) as HE
    by (apply (bool_decide_unpack _); vm_compute; exact I).
  split; [exact HE|].
  exact (queries_agree TERRAN_TECH_TREE "SiegeTank"
           ["SupplyDepot"; "Barracks"; "CommandCenter"] HE).
Defined.

Lemma tech_progression_is_tech_path_witness :
  "Thor" ∈ dom TERRAN_TECH_TREE ∧
  ∃ r path,
    get_build_requirements TERRAN_TECH_TREE "Thor" = Return r ∧
    get_tech_path TERRAN_TECH_TREE ["CommandCenter"] "Thor" = Return path ∧
    tech_progression TERRAN_TECH_TREE (S (length (res_buildings r))) "Thor"
      ["CommandCenter"]
    = Return (["CommandCenter"] ++ path).
Proof.
  assert ("Thor" ∈ dom TERRAN_TECH_TREE) as HE
    by (apply (bool_decide_unpack _); vm_compute; exact I).
  split; [exact HE|].
  exact (tech_progression_is_tech_path TERRAN_TECH_TREE ["CommandCenter"]
           "Thor" HE).
Defined.

Lemma tech_path_makes_buildable_witness :
  "Battlecruiser" ∈ dom TERRAN_TECH_TREE ∧
  ∃ path,
    get_tech_path TERRAN_TECH_TREE ["CommandCenter"] "Battlecruiser"
    = Return path ∧
    ∀ more,
      can_build_unit TERRAN_TECH_TREE "Battlecruiser"
        (["CommandCenter"] ++ path ++ more)
      = Return (true, []).
Proof.
  assert ("Battlecruiser" ∈ dom TERRAN_TECH_TREE) as HE
    by (apply (bool_decide_unpack _); vm_compute; exact I).
  split; [exact HE|].
  exact (tech_path_makes_buildable TERRAN_TECH_TREE ["CommandCenter"]
           "Battlecruiser" HE).
Defined.

Lemma can_build_unit_monotone_witness :
  (∀ b, b ∈ ["CommandCenter"] →
        b ∈ ["CommandCenter"; "SupplyDepot"; "Barracks"]) ∧
  can_build_unit TERRAN_TECH_TREE "Marine" ["CommandCenter"]
  = Return (false, ["Barracks"; "SupplyDepot"]) ∧
  ∃ can2 missing2,
    can_build_unit TERRAN_TECH_TREE "Marine"
      ["CommandCenter"; "SupplyDepot"; "Barracks"]
    = Return (can2, missing2) ∧
    (∀ b, b ∈ missing2 → b ∈ ["Barracks"; "SupplyDepot"]) ∧
    (false = true → can2 = true) ∧
    ((∀ b, b ∈ ["CommandCenter"; "SupplyDepot"; "Barracks"] →
           b ∈ ["CommandCenter"]) →
     can2 = false ∧ missing2 = ["Barracks"; "SupplyDepot"]).
Proof.
  assert (∀ b : string, b ∈ ["CommandCenter"] →
            b ∈ ["CommandCenter"; "SupplyDepot"; "Barracks"]) as Hsub
    by (intros b ->%list_elem_of_singleton; left).
  assert (can_build_unit TERRAN_TECH_TREE "Marine" ["CommandCenter"]
          = Return (false, ["Barracks"; "SupplyDepot"])) as Hrun
    by (vm_compute; reflexivity).
  split; [exact Hsub|]. split; [exact Hrun|].
  exact (can_build_unit_monotone TERRAN_TECH_TREE "Marine" _ _ _ _ Hsub Hrun).
Defined.

(** ** What the traversal lists, on an arbitrary table *)

Section traversal_facts.
Variable tree : gmap string requirements.

Lemma state_le_refl s : state_le s s.
Proof. by split_and!. Qed.

Lemma state_le_trans s t u : state_le s t → state_le t u → state_le s u.
Proof. intros (? & ? & ?) (? & ? & ?). split_and!; by etrans. Qed.

Lemma expanded_mono s t A : state_le s t → expanded tree s A → expanded tree t A.
Proof.
  intros (Hv & Hb & Hu) Hexp reqs Hlook.
  destruct (Hexp reqs Hlook) as [Hbs Hus].
  split; intros x Hx; [destruct (Hbs x Hx)|destruct (Hus x Hx)]; split; auto.
Qed.

Lemma elem_of_append_if_absent x y l :
  y ∈ append_if_absent x l ↔ y = x ∨ y ∈ l.
Proof.
  unfold append_if_absent. case_decide; [naive_solver|].
  rewrite elem_of_app, list_elem_of_singleton. tauto.
Qed.

Lemma for_each_inv_prefix {St} (I : list string → St → Prop)
    (body : string → St → option St) l :
  (∀ pre x t t', x ∈ l → I pre t → body x t = Some t' → I (pre ++ [x]) t') →
  ∀ pre s s', I pre s → for_each body l s = Some s' → I (pre ++ l) s'.
Proof.
  induction l as [|x l IH]; intros Hbody pre s s' Hs Hrun; simpl in Hrun.
  - simplify_eq. by rewrite app_nil_r.
  - destruct (body x s) as [s1|] eqn:Hx; [|done].
    rewrite (cons_middle x pre l), app_assoc.
    apply (IH (λ p y t t' Hy, Hbody p y t t' (list_elem_of_further _ _ _ Hy))
             (pre ++ [x]) s1); [|done].
    eapply Hbody; [left|done..].
Qed.

(** A call only adds to the three variables, and it leaves its name
    visited. *)
Lemma resolve_dependencies_grows fuel name s s' :
  resolve_dependencies tree fuel name s = Some s' →
  state_le s s' ∧ name ∈ visited s'.
Proof.
  revert name s s'.
  induction fuel as [|fuel IH]; intros name s s' Hrun; [done|].
  simpl in Hrun. case_decide; [simplify_eq; auto using state_le_refl|].
  set (s1 := State ({[name]} ∪ visited s) (all_buildings s) (all_units s)) in *.
  assert (state_le s s1) as Hs1 by (subst s1; split_and!; simpl; set_solver).
  assert (state_le s1 s' → state_le s s' ∧ name ∈ visited s') as Hend.
  { intros Hle. split; [by eapply state_le_trans|].
    destruct Hle as [Hv _]. apply Hv. subst s1. simpl. set_solver. }
  destruct (tree !! name) as [reqs|] eqn:Hlook;
    [|simplify_eq; apply Hend, state_le_refl].
  match type of Hrun with
  | match ?loop with _ => _ end = _ => destruct loop as [s2|] eqn:Hloop
  end; [|done].
  apply Hend.
  eapply (for_each_inv (state_le s1)); [| |exact Hrun].
  - intros u t t' _ Ht Hcall. simpl in Hcall.
    destruct (resolve_dependencies tree fuel u t) as [t1|] eqn:Hrec; [|done].
    apply IH in Hrec as [Hle _]. simplify_eq.
    eapply state_le_trans; [exact Ht|]. eapply state_le_trans; [exact Hle|].
    split_and!; simpl; [done..|].
    intros y Hy. apply elem_of_append_if_absent. by right.
  - eapply (for_each_inv (state_le s1)); [| |exact Hloop]; [|apply state_le_refl].
    intros b t t' _ Ht Hcall. simpl in Hcall.
    destruct (resolve_dependencies tree fuel b t) as [t1|] eqn:Hrec; [|done].
    apply IH in Hrec as [Hle _]. simplify_eq.
    eapply state_le_trans; [exact Ht|]. eapply state_le_trans; [exact Hle|].
    split_and!; simpl; [done| |done].
    intros y Hy. apply elem_of_append_if_absent. by right.
Qed.
(** When a call returns, its name is worked off, and so is every name that
    was visited during the call. *)
Lemma resolve_dependencies_expands fuel name s s' G :
  closed_except tree G s →
  resolve_dependencies tree fuel name s = Some s' →
  closed_except tree G s'.
Proof.
  revert name s s' G.
  induction fuel as [|fuel IH]; intros name s s' G Hclosed Hrun; [done|].
  simpl in Hrun. case_decide as Hvis; [by simplify_eq|].
  set (s1 := State ({[name]} ∪ visited s) (all_buildings s) (all_units s)) in *.
  assert (state_le s s1) as Hs1 by (subst s1; split_and!; simpl; set_solver).
  assert (closed_except tree (G ∪ {[name]}) s1) as Hclosed1.
  { intros A HA HG. apply (expanded_mono s); [done|].
    apply Hclosed; [subst s1; simpl in HA|]; set_solver. }
  destruct (tree !! name) as [reqs|] eqn:Hlook.
  2:{ simplify_eq. intros A HA HG.
      destruct (decide (A = name)) as [->|Hne].
      - intros reqs Hreqs. congruence.
      - apply Hclosed1; [done|set_solver]. }
  match type of Hrun with
  | match ?loop with _ => _ end = _ => destruct loop as [s2|] eqn:Hloop
  end; [|done].
  apply (for_each_inv_prefix
           (λ pre t, closed_except tree (G ∪ {[name]}) t ∧ state_le s1 t ∧
                     ∀ b, b ∈ pre → b ∈ visited t ∧ b ∈ all_buildings t))
    with (pre := []) in Hloop.
  2:{ intros pre b t t' _ (Hc & Hle & Hpre) Hcall. simpl in Hcall.
      destruct (resolve_dependencies tree fuel b t) as [t1|] eqn:Hrec; [|done].
      pose proof (IH _ _ _ _ Hc Hrec) as Hc1.
      apply resolve_dependencies_grows in Hrec as [Hle1 Hb].
      simplify_eq.
      set (t' := State (visited t1) (append_if_absent b (all_buildings t1))
                   (all_units t1)).
      assert (state_le t1 t') as Hle'.
      { split_and!; simpl; [done| |done].
        intros y Hy. apply elem_of_append_if_absent. by right. }
      split_and!.
      - intros A HA HG. apply (expanded_mono t1); [done|]. by apply Hc1.
      - eauto using state_le_trans.
      - intros x [Hx| ->%list_elem_of_singleton]%elem_of_app.
        + destruct (Hpre x Hx) as [Hxv Hxb].
          destruct (state_le_trans _ _ _ Hle1 Hle') as (Hv & Hbs & _).
          split; [by apply Hv|by apply Hbs].
        + split; [done|]. apply elem_of_append_if_absent. by left. }
  2:{ split_and!; [done|apply state_le_refl|].
      intros b Hb. by apply elem_of_nil in Hb. }
  destruct Hloop as (Hclosed2 & Hle2 & Hbuildings).
  apply (for_each_inv_prefix
           (λ pre t, closed_except tree (G ∪ {[name]}) t ∧ state_le s2 t ∧
                     ∀ u, u ∈ pre → u ∈ visited t ∧ u ∈ all_units t))
    with (pre := []) in Hrun.
  2:{ intros pre u t t' _ (Hc & Hle & Hpre) Hcall. simpl in Hcall.
      destruct (resolve_dependencies tree fuel u t) as [t1|] eqn:Hrec; [|done].
      pose proof (IH _ _ _ _ Hc Hrec) as Hc1.
      apply resolve_dependencies_grows in Hrec as [Hle1 Hu].
      simplify_eq.
      set (t' := State (visited t1) (all_buildings t1)
                   (append_if_absent u (all_units t1))).
      assert (state_le t1 t') as Hle'.
      { split_and!; simpl; [done..|].
        intros y Hy. apply elem_of_append_if_absent. by right. }
      split_and!.
      - intros A HA HG. apply (expanded_mono t1); [done|]. by apply Hc1.
      - eauto using state_le_trans.
      - intros x [Hx| ->%list_elem_of_singleton]%elem_of_app.
        + destruct (Hpre x Hx) as [Hxv Hxu].
          destruct (state_le_trans _ _ _ Hle1 Hle') as (Hv & _ & Hus).
          split; [by apply Hv|by apply Hus].
        + split; [done|]. apply elem_of_append_if_absent. by left. }
  2:{ split_and!; [done|apply state_le_refl|].
      intros u Hu. by apply elem_of_nil in Hu. }
  destruct Hrun as (Hclosed3 & (Hv3 & Hb3 & _) & Hunits).
  intros A HA HG. destruct (decide (A = name)) as [->|Hne].
  - intros reqs' Hreqs'. rewrite Hlook in Hreqs'. simplify_eq. split.
    + intros b Hb. destruct (Hbuildings b Hb). split; [by apply Hv3|by apply Hb3].
    + intros u Hu. by apply Hunits.
  - apply Hclosed3; [done|set_solver].
Qed.
(** The rule of [resolve_dependencies_inv] with the parent of an appended
    name at hand: the name is appended to the list of the kind under which
    the record of the running call lists it. *)
Lemma resolve_dependencies_inv_parent (I : state → Prop) (Q : string → Prop) :
  (∀ name s, Q name → I s →
     I (State ({[name]} ∪ visited s) (all_buildings s) (all_units s))) →
  (∀ name reqs b s, Q name → tree !! name = Some reqs → b ∈ buildings reqs →
     I s →
     I (State (visited s) (append_if_absent b (all_buildings s)) (all_units s))) →
  (∀ name reqs u s, Q name → tree !! name = Some reqs → u ∈ units reqs →
     I s →
     I (State (visited s) (all_buildings s) (append_if_absent u (all_units s)))) →
  (∀ name reqs (x : string), Q name → tree !! name = Some reqs →
     x ∈ buildings reqs ++ units reqs → Q x) →
  ∀ fuel name s s',
    Q name → I s → resolve_dependencies tree fuel name s = Some s' → I s'.
Proof.
  intros Hmark Hb Hu Hstep.
  induction fuel as [|fuel IH]; intros name s s' Hname Hs Hrun; [done|].
  simpl in Hrun. case_decide; [by simplify_eq|].
  destruct (tree !! name) as [reqs|] eqn:Hlook; [|simplify_eq; by apply Hmark].
  match type of Hrun with
  | match ?loop with _ => _ end = _ => destruct loop as [s2|] eqn:Hloop
  end; [|done].
  eapply for_each_inv; [| |exact Hrun].
  - intros u t t' Hin Ht Hcall. simpl in Hcall.
    destruct (resolve_dependencies tree fuel u t) as [t1|] eqn:Hrec; [|done].
    assert (Q u) by (apply (Hstep name reqs); [done..|set_solver]).
    simplify_eq. apply (Hu name reqs); [done..|]. by eapply IH.
  - eapply for_each_inv; [| |exact Hloop].
    + intros b t t' Hin Ht Hcall. simpl in Hcall.
      destruct (resolve_dependencies tree fuel b t) as [t1|] eqn:Hrec; [|done].
      assert (Q b) by (apply (Hstep name reqs); [done..|set_solver]).
      simplify_eq. apply (Hb name reqs); [done..|]. by eapply IH.
    + by apply Hmark.
Qed.

Lemma resolve_dependencies_listed fuel E s :
  resolve_dependencies tree fuel E initial_state = Some s →
  (∀ b, b ∈ all_buildings s → listed_building tree E b) ∧
  (∀ u, u ∈ all_units s → listed_unit tree E u).
Proof.
  apply (resolve_dependencies_inv_parent
           (λ t, (∀ b, b ∈ all_buildings t → listed_building tree E b) ∧
                 (∀ u, u ∈ all_units t → listed_unit tree E u))
           (λ x, rtc (requires tree) E x)); simpl.
  - by intros _ t _ Ht.
  - intros name reqs b t Hname Hlook Hb [Hbs Hus]. split; [|done].
    intros y [->|Hy]%elem_of_append_if_absent; [|by auto].
    by exists name, reqs.
  - intros name reqs u t Hname Hlook Hu [Hbs Hus]. split; [done|].
    intros y [->|Hy]%elem_of_append_if_absent; [|by auto].
    by exists name, reqs.
  - intros name reqs x Hname Hlook Hx.
    eapply rtc_r; [exact Hname|]. by eapply requires_lookup.
  - done.
  - split; intros x Hx; by apply elem_of_nil in Hx.
Qed.

Lemma closed_visits_reachable s E A :
  closed_except tree ∅ s → E ∈ visited s → rtc (requires tree) E A →
  A ∈ visited s.
Proof.
  intros Hclosed HE. revert A. apply rtc_ind_r; [done|].
  intros A B _ HAB HA. unfold requires, direct_prerequisites in HAB.
  destruct (tree !! A) as [reqs|] eqn:Hlook; [|by apply elem_of_nil in HAB].
  destruct (Hclosed A HA (not_elem_of_empty A) reqs Hlook) as [Hbs Hus].
  apply elem_of_app in HAB as [HB|HB]; [by apply Hbs|by apply Hus].
Qed.

(** X8. On every table, for every key [E]: [get_build_requirements]
    returns, and its [buildings] list holds exactly the names that [E] or a
    name required by [E] (directly or through other records) lists as a
    building; its [units] list holds exactly the names listed as a unit. *)
Theorem requirement_lists_characterised E :
  E ∈ dom tree →
  ∃ r, get_build_requirements tree E = Return r ∧
       (∀ b, b ∈ res_buildings r ↔ listed_building tree E b) ∧
       (∀ u, u ∈ res_units r ↔ listed_unit tree E u).
Proof.
  intros HE.
  destruct (get_build_requirements_defined _ _ HE) as (reqs & s & _ & Hrun & Hr).
  destruct (resolve_dependencies_listed _ _ _ Hrun) as [Hbs Hus].
  assert (closed_except tree ∅ s) as Hclosed.
  { eapply resolve_dependencies_expands; [|exact Hrun].
    intros A HA. simpl in HA. set_solver. }
  destruct (resolve_dependencies_grows _ _ _ _ Hrun) as [_ Hvis].
  eexists. split; [exact Hr|]. simpl. split.
  - intros b. split; [apply Hbs|].
    intros (A & reqsA & HA & Hlook & Hb).
    pose proof (closed_visits_reachable _ _ _ Hclosed Hvis HA) as HAv.
    by apply (Hclosed A HAv (not_elem_of_empty A) reqsA Hlook).
  - intros u. split; [apply Hus|].
    intros (A & reqsA & HA & Hlook & Hu).
    pose proof (closed_visits_reachable _ _ _ Hclosed Hvis HA) as HAv.
    by apply (Hclosed A HAv (not_elem_of_empty A) reqsA Hlook).
Qed.

(** X9. On every table, the direct prerequisites of a key are in its lists:
    every name of [immediate.buildings] is in [buildings] and every name of
    [immediate.units] is in [units]. *)
Theorem immediate_within_lists E :
  E ∈ dom tree →
  ∃ r, get_build_requirements tree E = Return r ∧
       buildings (res_immediate r) ⊆ res_buildings r ∧
       units (res_immediate r) ⊆ res_units r.
Proof.
  intros HE.
  destruct (requirement_lists_characterised E HE) as (r & Hr & Hbs & Hus).
  pose proof Hr as Hr'. unfold get_build_requirements in Hr'.
  destruct (tree !! E) as [reqs|] eqn:Hlook; [|done].
  destruct (resolve_dependencies _ _ _ _) as [s|]; [|done].
  injection Hr' as <-. exists (BuildRequirements (all_buildings s) (all_units s)
                                 (Requirements (buildings reqs) (units reqs))).
  split; [exact Hr|]. simpl in *. split.
  - intros b Hb. apply Hbs. by exists E, reqs.
  - intros u Hu. apply Hus. by exists E, reqs.
Qed.

(** X10. On every table, what a prerequisite needs, its dependent needs:
    when [E] requires the key [A], directly or through other records, the
    lists of [A] are within the lists of [E]. *)
Theorem prerequisite_lists_included E A :
  E ∈ dom tree → A ∈ dom tree → rtc (requires tree) E A →
  ∃ rE rA,
    get_build_requirements tree E = Return rE ∧
    get_build_requirements tree A = Return rA ∧
    res_buildings rA ⊆ res_buildings rE ∧
    res_units rA ⊆ res_units rE.
Proof.
  intros HE HA HEA.
  destruct (requirement_lists_characterised E HE) as (rE & HrE & HbE & HuE).
  destruct (requirement_lists_characterised A HA) as (rA & HrA & HbA & HuA).
  exists rE, rA. split_and!; [done..| |].
  - intros b (B & reqs & HAB & Hlook & Hb)%HbA. apply HbE.
    exists B, reqs. split_and!; [by etrans|done..].
  - intros u (B & reqs & HAB & Hlook & Hu)%HuA. apply HuE.
    exists B, reqs. split_and!; [by etrans|done..].
Qed.

(** X11. On every table, the lists of a key are complete for their own
    entries: a name that the record of an entry of [buildings] or [units]
    lists as a building is in [buildings], and one it lists as a unit is in
    [units]. *)
Theorem lists_closed_under_prerequisites E :
  E ∈ dom tree →
  ∃ r, get_build_requirements tree E = Return r ∧
       ∀ X reqs,
         X ∈ res_buildings r ++ res_units r → tree !! X = Some reqs →
         buildings reqs ⊆ res_buildings r ∧ units reqs ⊆ res_units r.
Proof.
  intros HE.
  destruct (requirement_lists_characterised E HE) as (r & Hr & Hbs & Hus).
  exists r. split; [exact Hr|]. intros X reqs HX Hlook.
  assert (rtc (requires tree) E X) as HEX.
  { apply elem_of_app in HX as [(A & reqsA & HA & HlookA & Hin)%Hbs
                               |(A & reqsA & HA & HlookA & Hin)%Hus];
      (eapply rtc_r; [exact HA|]); eapply requires_lookup; [done|set_solver..]. }
  split.
  - intros b Hb. apply Hbs. by exists X, reqs.
  - intros u Hu. apply Hus. by exists X, reqs.
Qed.

(** X12. On every table without a cycle, the lists of a key do not hold the
    key itself. *)
Theorem acyclic_no_self E :
  (∀ X, ¬ tc (requires tree) X X) →
  E ∈ dom tree →
  ∃ r, get_build_requirements tree E = Return r ∧
       (E ∉ res_buildings r) ∧ (E ∉ res_units r).
Proof.
  intros Hacyclic HE.
  destruct (requirement_lists_characterised E HE) as (r & Hr & Hbs & Hus).
  exists r. split; [exact Hr|]. split.
  - intros (A & reqs & HA & Hlook & Hin)%Hbs. apply (Hacyclic E).
    eapply tc_rtc_l; [exact HA|]. apply tc_once.
    eapply requires_lookup; [done|set_solver].
  - intros (A & reqs & HA & Hlook & Hin)%Hus. apply (Hacyclic E).
    eapply tc_rtc_l; [exact HA|]. apply tc_once.
    eapply requires_lookup; [done|set_solver].
Qed.

(** X13. On every table, also one with cycles or with names that are not
    keys, [get_build_requirements] returns for every key, and neither list
    holds a name twice. *)
Theorem get_build_requirements_returns_nodup E :
  E ∈ dom tree →
  ∃ r, get_build_requirements tree E = Return r ∧
       NoDup (res_buildings r) ∧ NoDup (res_units r).
Proof.
  intros HE.
  destruct (get_build_requirements_defined _ _ HE) as (reqs & s & _ & _ & Hr).
  eexists. split; [exact Hr|]. exact (get_build_requirements_NoDup _ _ _ Hr).
Qed.
End traversal_facts.

Lemma requirement_lists_characterised_witness :
  "A" ∈ dom cyclic_tree ∧
  ∃ r, get_build_requirements cyclic_tree "A" = Return r ∧
       (∀ b, b ∈ res_buildings r ↔ listed_building cyclic_tree "A" b) ∧
       (∀ u, u ∈ res_units r ↔ listed_unit cyclic_tree "A" u).
Proof.
  assert ("A" ∈ dom cyclic_tree) as HE
    by (apply (bool_decide_unpack _); vm_compute; exact I).
  split; [exact HE|].
  exact (requirement_lists_characterised cyclic_tree "A" HE).
Defined.

Lemma immediate_within_lists_witness :
  "Battlecruiser" ∈ dom TERRAN_TECH_TREE ∧
  ∃ r, get_build_requirements TERRAN_TECH_TREE "Battlecruiser" = Return r ∧
       buildings (res_immediate r) ⊆ res_buildings r ∧
       units (res_immediate r) ⊆ res_units r.
Proof.
  assert ("Battlecruiser" ∈ dom TERRAN_TECH_TREE) as HE
    by (apply (bool_decide_unpack _); vm_compute; exact I).
  split; [exact HE|].
  exact (immediate_within_lists TERRAN_TECH_TREE "Battlecruiser" HE).
Defined.

Lemma prerequisite_lists_included_witness :
  "AutoTurret" ∈ dom TERRAN_TECH_TREE ∧
  "Raven" ∈ dom TERRAN_TECH_TREE ∧
  rtc (requires TERRAN_TECH_TREE) "AutoTurret" "Raven" ∧
  ∃ rE rA,
    get_build_requirements TERRAN_TECH_TREE "AutoTurret" = Return rE ∧
    get_build_requirements TERRAN_TECH_TREE "Raven" = Return rA ∧
    res_buildings rA ⊆ res_buildings rE ∧
    res_units rA ⊆ res_units rE.
Proof.
  assert ("AutoTurret" ∈ dom TERRAN_TECH_TREE) as HE
    by (apply (bool_decide_unpack _); vm_compute; exact I).
  assert ("Raven" ∈ dom TERRAN_TECH_TREE) as HA
    by (apply (bool_decide_unpack _); vm_compute; exact I).
  assert (rtc (requires TERRAN_TECH_TREE) "AutoTurret" "Raven") as HEA
    by (apply rtc_once; unfold requires; apply (bool_decide_unpack _);
        vm_compute; exact I).
  split_and!; [exact HE|exact HA|exact HEA|].
  exact (prerequisite_lists_included TERRAN_TECH_TREE "AutoTurret" "Raven"
           HE HA HEA).
Defined.

Lemma lists_closed_under_prerequisites_witness :
  "Battlecruiser" ∈ dom TERRAN_TECH_TREE ∧
  ∃ r, get_build_requirements TERRAN_TECH_TREE "Battlecruiser" = Return r ∧
       ∀ X reqs,
         X ∈ res_buildings r ++ res_units r →
         TERRAN_TECH_TREE !! X = Some reqs →
         buildings reqs ⊆ res_buildings r ∧ units reqs ⊆ res_units r.
Proof.
  assert ("Battlecruiser" ∈ dom TERRAN_TECH_TREE) as HE
    by (apply (bool_decide_unpack _); vm_compute; exact I).
  split; [exact HE|].
  exact (lists_closed_under_prerequisites TERRAN_TECH_TREE "Battlecruiser" HE).
Defined.

Lemma acyclic_no_self_witness :
  (∀ X, ¬ tc (requires TERRAN_TECH_TREE) X X) ∧
  "Thor" ∈ dom TERRAN_TECH_TREE ∧
  ∃ r, get_build_requirements TERRAN_TECH_TREE "Thor" = Return r ∧
       ("Thor" ∉ res_buildings r) ∧ ("Thor" ∉ res_units r).
Proof.
  assert (∀ X, ¬ tc (requires TERRAN_TECH_TREE) X X) as Hacyclic
    by (intros X HX%rank_decreases_tc; lia).
  assert ("Thor" ∈ dom TERRAN_TECH_TREE) as HE
    by (apply (bool_decide_unpack _); vm_compute; exact I).
  split_and!; [exact Hacyclic|exact HE|].
  exact (acyclic_no_self TERRAN_TECH_TREE "Thor" Hacyclic HE).
Defined.

Lemma get_build_requirements_returns_nodup_witness :
  "A" ∈ dom cyclic_tree ∧
  ∃ r, get_build_requirements cyclic_tree "A" = Return r ∧
       NoDup (res_buildings r) ∧ NoDup (res_units r).
Proof.
  assert ("A" ∈ dom cyclic_tree) as HE
    by (apply (bool_decide_unpack _); vm_compute; exact I).
  split; [exact HE|].
  exact (get_build_requirements_returns_nodup cyclic_tree "A" HE).
Defined.

(** ** The tech path on the table *)

Lemma filter_keeps_order (f : string → Prop) `{!∀ x, Decision (f x)}
    (l : list string) :
  NoDup l →
  ∀ i i0 j0 x y,
    filter f l !! i = Some x → l !! i0 = Some x → l !! j0 = Some y →
    j0 < i0 → f y →
    ∃ j, j < i ∧ filter f l !! j = Some y.
Proof.
  induction l as [|a l IH]; intros Hnd i i0 j0 x y Hi Hi0 Hj0 Hlt Hy;
    [by rewrite lookup_nil in Hi0|].
  apply NoDup_cons in Hnd as [Ha Hnd].
  destruct i0 as [|i0]; [lia|]. simpl in Hi0.
  assert (x ≠ a) as Hxa
    by (intros ->; apply Ha; by eapply list_elem_of_lookup_2).
  rewrite filter_cons in Hi |- *.
  destruct (decide (f a)) as [Hfa|Hfa].
  - destruct i as [|i]; [simpl in Hi; congruence|]. simpl in Hi.
    destruct j0 as [|j0]; simpl in Hj0.
    + simplify_eq. exists 0. split; [lia|done].
    + destruct (IH Hnd i i0 j0 x y) as (j & Hj & Hlook); [done..|lia|done|].
      exists (S j). split; [lia|done].
  - destruct j0 as [|j0]; simpl in Hj0; [by simplify_eq|].
    apply (IH Hnd i i0 j0 x y); [done..|lia|done].
Qed.

Lemma TERRAN_buildings_prerequisites_first E :
  E ∈ dom TERRAN_TECH_TREE →
  ∃ r, get_build_requirements TERRAN_TECH_TREE E = Return r ∧
       prerequisites_first TERRAN_TECH_TREE (res_buildings r).
Proof.
  intros HE.
  assert (for_all_defined
            (λ _ r, prerequisites_first_from TERRAN_TECH_TREE
                      (res_buildings r) [] (res_buildings r)) = true) as Hall
    by (vm_compute; reflexivity).
  destruct (for_all_defined_sound _ Hall E HE) as (r & Hr & Hchk).
  exists r. split; [exact Hr|]. by apply prerequisites_first_check.
Qed.

(** X14. On the Terran table, the tech path of a defined target is a build
    sequence: a building that the record of an entry of the path lists is
    among the buildings the path was computed from or stands earlier in the
    path. *)
Theorem tech_path_is_build_sequence start_buildings E :
  E ∈ dom TERRAN_TECH_TREE →
  ∃ path,
    get_tech_path TERRAN_TECH_TREE start_buildings E = Return path ∧
    ∀ i X reqs P,
      path !! i = Some X → TERRAN_TECH_TREE !! X = Some reqs →
      P ∈ buildings reqs →
      P ∈ start_buildings ∨ ∃ j, j < i ∧ path !! j = Some P.
Proof.
  intros HE.
  destruct (TERRAN_buildings_prerequisites_first E HE) as (r & Hr & Hfirst).
  destruct (lists_closed_under_prerequisites TERRAN_TECH_TREE E HE)
    as (r' & Hr' & Hclosed).
  rewrite Hr in Hr'. injection Hr' as <-.
  destruct (get_build_requirements_NoDup _ _ _ Hr) as [Hnd _].
  eexists. split; [exact (get_tech_path_defined _ start_buildings _ _ Hr)|].
  intros i X reqs P Hi Hlook HP.
  destruct (decide (P ∈ start_buildings)) as [|Hnot]; [by left|]. right.
  assert (X ∈ res_buildings r) as HX.
  { apply list_elem_of_lookup_2 in Hi. by apply list_elem_of_filter in Hi as [_ ?]. }
  destruct (Hclosed X reqs) as [Hbs _]; [set_solver|done|].
  pose proof HX as [i0 Hi0]%list_elem_of_lookup.
  destruct (Hfirst i0 X P Hi0) as (j0 & Hlt & Hj0).
  { unfold direct_prerequisites. rewrite Hlook. set_solver. }
  { by apply Hbs. }
  by apply (filter_keeps_order _ _ Hnd i i0 j0 X P).
Qed.

Lemma tech_path_is_build_sequence_witness :
  "Battlecruiser" ∈ dom TERRAN_TECH_TREE ∧
  ∃ path,
    get_tech_path TERRAN_TECH_TREE ["CommandCenter"; "Barracks"]
      "Battlecruiser"
    = Return path ∧
    ∀ i X reqs P,
      path !! i = Some X → TERRAN_TECH_TREE !! X = Some reqs →
      P ∈ buildings reqs →
      P ∈ ["CommandCenter"; "Barracks"] ∨ ∃ j, j < i ∧ path !! j = Some P.
Proof.
  assert ("Battlecruiser" ∈ dom TERRAN_TECH_TREE) as HE
    by (apply (bool_decide_unpack _); vm_compute; exact I).
  split; [exact HE|].
  exact (tech_path_is_build_sequence ["CommandCenter"; "Barracks"]
           "Battlecruiser" HE).
Defined.

(** ** The bot of [main.py] *)

Section tankbot_facts.
Context (F : framework).

Lemma extends_with_refl (P : call (Point2 F) → Prop) (f : frame F) :
  extends_with P f f.
Proof. exists []. by rewrite app_nil_r. Qed.

Lemma extends_with_trans (P : call (Point2 F) → Prop) (f g h : frame F) :
  extends_with P f g → extends_with P g h → extends_with P f h.
Proof.
  intros (n1 & H1 & HP1) (n2 & H2 & HP2). exists (n1 ++ n2).
  split; [by rewrite H2, H1, app_assoc|by apply Forall_app].
Qed.

Lemma do_register_behavior_extends (P : call (Point2 F) → Prop) b f :
  P (CallRegisterBehavior b) → extends_with P f (do_register_behavior F b f).
Proof. intros HP. exists [CallRegisterBehavior b]. split; [done|]. by constructor. Qed.

Lemma request_supply_depot_extends (P : call (Point2 F) → Prop) f :
  (∀ loc, P (CallRegisterBehavior (BuildStructure loc SUPPLYDEPOT false))) →
  extends_with P f (request_supply_depot F f).
Proof.
  intros HP. unfold request_supply_depot.
  destruct (can_afford F (game f) SUPPLYDEPOT); [|apply extends_with_refl].
  case_decide; [|apply extends_with_refl].
  by apply do_register_behavior_extends.
Qed.

Lemma build_required_structure_extends (P : call (Point2 F) → Prop)
    mapping building_name all_ready f :
  (∀ loc t p, P (CallRegisterBehavior (BuildStructure loc t p))) →
  (∀ t loc, P (CallRegisterBehavior (TechUp t loc))) →
  extends_with P f
    (build_required_structure F mapping building_name (all_ready, f)).2.
Proof.
  intros Hbuild Htech. unfold build_required_structure.
  destruct (mapping !! building_name) as [unit_type|];
    [|apply extends_with_refl].
  set (f1 := if _ : bool then request_supply_depot F f else f).
  assert (extends_with P f f1) as Hf1.
  { subst f1. destruct (_ && _); [|apply extends_with_refl].
    by apply request_supply_depot_extends. }
  eapply extends_with_trans; [exact Hf1|]. clearbody f1.
  destruct (TECHLAB_TYPES F unit_type).
  - destruct (techlab_to_structure_get unit_type); [|apply extends_with_refl].
    case_decide; simpl; [|apply extends_with_refl].
    destruct (can_afford F (game f1) unit_type); [|apply extends_with_refl].
    by apply do_register_behavior_extends.
  - case_decide; simpl; [|apply extends_with_refl].
    case_decide; [|apply extends_with_refl].
    destruct (can_afford F (game f1) unit_type); [|apply extends_with_refl].
    by apply do_register_behavior_extends.
Qed.

Lemma build_required_structures_extends (P : call (Point2 F) → Prop)
    build_order mapping f :
  (∀ loc t p, P (CallRegisterBehavior (BuildStructure loc t p))) →
  (∀ t loc, P (CallRegisterBehavior (TechUp t loc))) →
  extends_with P f (build_required_structures F build_order mapping f).2.
Proof.
  intros Hbuild Htech. unfold build_required_structures.
  generalize true as all_ready. revert f.
  induction (res_buildings build_order) as [|x l IH]; intros f all_ready;
    cbn [foldl]; [apply extends_with_refl|].
  destruct (build_required_structure F mapping x (all_ready, f))
    as [a1 f1] eqn:Hstep.
  apply (extends_with_trans P f f1); [|apply IH].
  change f1 with (a1, f1).2. rewrite <-Hstep.
  by apply build_required_structure_extends.
Qed.

Lemma build_workers_loop_extends (P : call (Point2 F) → Prop)
    townhalls current target f :
  (∀ th, P (CallTrain th SCV)) →
  extends_with P f (build_workers_loop F townhalls current target f).
Proof.
  intros Htrain. revert current f.
  induction townhalls as [|th l IH]; intros current f; simpl;
    [apply extends_with_refl|].
  case_decide; [apply extends_with_refl|].
  destruct (_ && _); [|apply IH].
  apply (extends_with_trans P f (do_train F th SCV f)); [|apply IH].
  exists [CallTrain th SCV]. split; [done|]. by constructor.
Qed.

Lemma build_workers_extends (P : call (Point2 F) → Prop) f :
  (∀ loc, P (CallRegisterBehavior (BuildStructure loc SUPPLYDEPOT false))) →
  (∀ th, P (CallTrain th SCV)) →
  extends_with P f (build_workers F f).
Proof.
  intros Hdepot Htrain. unfold build_workers.
  destruct (townhalls_ready F (game f)) as [|th l]; [apply extends_with_refl|].
  case_decide; [apply extends_with_refl|].
  destruct (_ && _); [by apply request_supply_depot_extends|].
  by apply build_workers_loop_extends.
Qed.

Lemma build_units_extends (P : call (Point2 F) → Prop) unit_type num_units f :
  (∀ loc, P (CallRegisterBehavior (BuildStructure loc SUPPLYDEPOT false))) →
  P (CallRegisterBehavior (SpawnController unit_type num_units)) →
  extends_with P f (build_units F unit_type num_units f).
Proof.
  intros Hdepot Hspawn. unfold build_units.
  destruct (_ && _); [by apply request_supply_depot_extends|].
  destruct (negb _); [apply extends_with_refl|].
  by apply do_register_behavior_extends.
Qed.
Lemma do_print_extends (P : call (Point2 F) → Prop) msg f :
  P (CallPrint msg) → extends_with P f (do_print F msg f).
Proof. intros HP. exists [CallPrint msg]. split; [done|]. by constructor. Qed.

Lemma do_super_on_step_extends (P : call (Point2 F) → Prop) iteration f :
  P (CallSuperOnStep iteration) →
  extends_with P f (do_super_on_step F iteration f).
Proof.
  intros HP. exists [CallSuperOnStep iteration]. split; [done|]. by constructor.
Qed.

(** X15. Whatever the framework does, one [on_step] keeps the build orders,
    keeps the flags in step with the phase (marines, then tanks, then
    vikings, then complete; a flag is set exactly when its phase is behind),
    and moves the phase forward by one place at most, never back. *)
Theorem on_step_phases iteration self f :
  phase_consistent self →
  phase_consistent (on_step F iteration self f).1 ∧
  marine_build_order (on_step F iteration self f).1 = marine_build_order self ∧
  siege_tank_build_order (on_step F iteration self f).1
  = siege_tank_build_order self ∧
  viking_build_order (on_step F iteration self f).1 = viking_build_order self ∧
  phase_rank (current_build_phase self)
  ≤ phase_rank (current_build_phase (on_step F iteration self f).1)
  ≤ S (phase_rank (current_build_phase self)).
Proof.
  intros (Hin & Hm & Ht & Hv). unfold on_step.
  set (f0 := build_workers F _). clearbody f0.
  destruct self as [mo so vo ph mr tr vr].
  cbn [current_build_phase marines_ready tanks_ready vikings_ready
       marine_build_order siege_tank_build_order viking_build_order] in *.
  rewrite !elem_of_cons, elem_of_nil in Hin.
  destruct Hin as [->|[->|[->|[->|[]]]]];
    vm_compute in Hm, Ht, Hv; subst mr tr vr;
    repeat (destruct (decide (_ = _)) as [?|?]; try discriminate; try done).
  all: try (destruct (build_required_structures F _ name_to_unit_type f0)
              as [[] f1]); cbn.
  all: unfold phase_consistent; cbn; split_and!; try reflexivity;
    try (vm_compute; lia).
  all: apply (bool_decide_unpack _); vm_compute; exact I.
Qed.

Lemma build_units_if_extends (P : call (Point2 F) → Prop) (b : bool)
    unit_type num_units f0 f :
  extends_with P f0 f →
  (∀ loc, P (CallRegisterBehavior (BuildStructure loc SUPPLYDEPOT false))) →
  (b = true → P (CallRegisterBehavior (SpawnController unit_type num_units))) →
  extends_with P f0 (if b then build_units F unit_type num_units f else f).
Proof.
  intros Hf Hdepot Hspawn. destruct b; [|done].
  eapply extends_with_trans; [exact Hf|]. apply build_units_extends; auto.
Qed.

(** X16. Whatever the framework does, [on_step] asks for units only once
    their phase is behind: a [SpawnController] it registers is for ten
    marines, five siege tanks or three vikings, and the flag of that unit is
    set when the step ends. *)
Theorem on_step_spawns_after_phase iteration self f :
  ∃ new,
    calls (on_step F iteration self f).2 = calls f ++ new ∧
    ∀ u m,
      CallRegisterBehavior (SpawnController u m) ∈ new →
      (u = MARINE ∧ m = 10 ∧ marines_ready (on_step F iteration self f).1 = true) ∨
      (u = SIEGETANK ∧ m = 5 ∧ tanks_ready (on_step F iteration self f).1 = true) ∨
      (u = VIKING ∧ m = 3 ∧ vikings_ready (on_step F iteration self f).1 = true).
Proof.
  destruct (on_step F iteration self f) as [self' f'] eqn:Hstep.
  cbn [fst snd].
  set (P := λ c : call (Point2 F),
         ∀ u m, c = CallRegisterBehavior (SpawnController u m) →
           (u = MARINE ∧ m = 10 ∧ marines_ready self' = true) ∨
           (u = SIEGETANK ∧ m = 5 ∧ tanks_ready self' = true) ∨
           (u = VIKING ∧ m = 3 ∧ vikings_ready self' = true)).
  assert (extends_with P f f') as (new & Hnew & HP).
  2:{ exists new. split; [exact Hnew|]. intros u m Hin.
      rewrite Forall_forall in HP. by apply (HP _ Hin). }
  assert (∀ loc, P (CallRegisterBehavior (BuildStructure loc SUPPLYDEPOT false)))
    as Hdepot by (by subst P).
  assert (∀ msg, P (CallPrint msg)) as Hprint by (by subst P).
  assert (∀ g order, extends_with P f g →
            extends_with P f
              (build_required_structures F order name_to_unit_type g).2)
    as Hbuild.
  { intros g order Hg. eapply extends_with_trans; [exact Hg|].
    apply build_required_structures_extends; by subst P. }
  assert (extends_with P f
            (build_workers F
               (do_register_behavior F Mining (do_super_on_step F iteration f))))
    as Hf0.
  { eapply extends_with_trans;
      [eapply extends_with_trans;
         [apply do_super_on_step_extends|apply do_register_behavior_extends]
      |apply build_workers_extends]; by subst P. }
  unfold on_step in Hstep. revert Hf0 Hstep.
  set (f0 := build_workers F _). clearbody f0. intros Hf0 Hstep.
  assert (∀ (self1 : TankBot) f1,
            extends_with P f f1 →
            (self1,
             if vikings_ready self1 then
               build_units F VIKING 3
                 (if tanks_ready self1 then
                    build_units F SIEGETANK 5
                      (if marines_ready self1 then build_units F MARINE 10 f1
                       else f1)
                  else if marines_ready self1 then build_units F MARINE 10 f1
                       else f1)
             else if tanks_ready self1 then
                    build_units F SIEGETANK 5
                      (if marines_ready self1 then build_units F MARINE 10 f1
                       else f1)
                  else if marines_ready self1 then build_units F MARINE 10 f1
                       else f1) = (self', f') →
            extends_with P f f') as Htail.
  { intros self1 f1 Hf1 [= -> <-].
    destruct (vikings_ready self') eqn:Hv, (tanks_ready self') eqn:Ht,
      (marines_ready self') eqn:Hm;
      repeat first
        [ exact Hf1
        | eapply extends_with_trans;
            [|apply build_units_extends; [exact Hdepot|]] ];
      subst P; cbn; intros u m [= <- <-]; rewrite ?Hv, ?Ht, ?Hm; auto. }
  destruct (decide (current_build_phase self = "marines")).
  { pose proof (Hbuild f0 (marine_build_order self) Hf0) as Hf1.
    destruct (build_required_structures F _ name_to_unit_type f0) as [[] f1];
      cbn in Hf1; refine (Htail _ _ _ Hstep);
      first [exact Hf1
            |eapply extends_with_trans; [exact Hf1|by apply do_print_extends]]. }
  destruct (decide (current_build_phase self = "tanks")).
  { pose proof (Hbuild f0 (siege_tank_build_order self) Hf0) as Hf1.
    destruct (build_required_structures F _ name_to_unit_type f0) as [[] f1];
      cbn in Hf1; refine (Htail _ _ _ Hstep);
      first [exact Hf1
            |eapply extends_with_trans; [exact Hf1|by apply do_print_extends]]. }
  destruct (decide (current_build_phase self = "vikings")).
  { pose proof (Hbuild f0 (viking_build_order self) Hf0) as Hf1.
    destruct (build_required_structures F _ name_to_unit_type f0) as [[] f1];
      cbn in Hf1; refine (Htail _ _ _ Hstep);
      first [exact Hf1
            |eapply extends_with_trans; [exact Hf1|by apply do_print_extends]]. }
  exact (Htail _ _ Hf0 Hstep).
Qed.
(** X17. [_build_required_structures] skips the names that the mapping does
    not have: result and requests are those for the order without them, and
    an order of unmapped names only is reported complete with no request
    made. *)
Theorem unmapped_buildings_skipped build_order mapping f :
  build_required_structures F build_order mapping f
  = build_required_structures F
      (BuildRequirements
         (filter (λ b, is_Some (mapping !! b)) (res_buildings build_order))
         (res_units build_order) (res_immediate build_order))
      mapping f ∧
  ((∀ b, b ∈ res_buildings build_order → mapping !! b = None) →
   build_required_structures F build_order mapping f = (true, f)).
Proof.
  unfold build_required_structures. cbn [res_buildings].
  generalize (true, f) as st.
  induction (res_buildings build_order) as [|x l IH]; intros st;
    [by split|].
  cbn [foldl]. destruct (IH (build_required_structure F mapping x st))
    as [IH1 IH2]. split.
  - rewrite filter_cons. destruct (decide (is_Some (mapping !! x))) as [|Hno].
    + cbn [foldl]. apply IH.
    + rewrite <-(proj1 (IH st)). f_equal.
      unfold build_required_structure. destruct st as [a g].
      destruct (mapping !! x); [destruct Hno; by eexists|done].
  - intros Hall. destruct (IH st) as [_ IHst].
    assert (build_required_structure F mapping x st = st) as ->.
    { unfold build_required_structure. destruct st as [a g].
      by rewrite (Hall x) by left. }
    apply IHst. intros b Hb. apply Hall. by right.
Qed.
Lemma length_filter_0 {A} (Q : A → Prop) `{!∀ x, Decision (Q x)} (l : list A) :
  length (filter Q l) = 0 ↔ ∀ x, x ∈ l → ¬ Q x.
Proof.
  split.
  - intros Hnil%nil_length_inv x Hx HQ.
    by apply (filter_nil_not_elem_of Q l x Hnil HQ).
  - intros Hall. induction l as [|x l IH]; [done|].
    rewrite filter_cons_False by (apply Hall; left).
    apply IH. intros y Hy. apply Hall. by right.
Qed.

Lemma same_observations_refl w : same_observations F w w.
Proof. by split_and!. Qed.

Lemma same_observations_trans w1 w2 w3 :
  same_observations F w1 w2 → same_observations F w2 w3 →
  same_observations F w1 w3.
Proof.
  intros (? & ? & ? & ? & ?) (? & ? & ? & ? & ?).
  split_and!; by etrans.
Qed.

Lemma request_supply_depot_observations f :
  register_keeps_observations F →
  same_observations F (game f) (game (request_supply_depot F f)).
Proof.
  intros Hkeep. unfold request_supply_depot.
  destruct (can_afford F (game f) SUPPLYDEPOT); [|apply same_observations_refl].
  case_decide; [|apply same_observations_refl]. apply Hkeep.
Qed.

Lemma structure_ready_techlab w t base :
  TECHLAB_TYPES F t = true → techlab_to_structure_get t = Some base →
  structure_ready F w t ↔
  ∃ s, s ∈ structures F w ∧ type_id s = base ∧
       has_techlab s = true ∧ is_ready s = true.
Proof. intros Htl Hbase. unfold structure_ready. by rewrite Htl, Hbase. Qed.

Lemma structure_ready_techlab_unknown w t :
  TECHLAB_TYPES F t = true → techlab_to_structure_get t = None →
  structure_ready F w t.
Proof. intros Htl Hbase. unfold structure_ready. by rewrite Htl, Hbase. Qed.

Lemma structure_ready_other w t :
  TECHLAB_TYPES F t = false →
  structure_ready F w t ↔
  ∃ s, s ∈ structures F w ∧ type_id s = t ∧ is_ready s = true.
Proof. intros Htl. unfold structure_ready. by rewrite Htl. Qed.

(** One round of the loop, when registering keeps the observations. *)
Lemma build_required_structure_round mapping building_name all_ready f :
  register_keeps_observations F →
  same_observations F (game f)
    (game (build_required_structure F mapping building_name (all_ready, f)).2) ∧
  ((build_required_structure F mapping building_name (all_ready, f)).1 = true ↔
   all_ready = true ∧
   ∀ t, mapping !! building_name = Some t → structure_ready F (game f) t) ∧
  extends_with (allowed_request F (game f)) f
    (build_required_structure F mapping building_name (all_ready, f)).2.
Proof.
  intros Hkeep. unfold build_required_structure.
  destruct (mapping !! building_name) as [unit_type|]; cbn [fst snd].
  2:{ split_and!; [apply same_observations_refl| |apply extends_with_refl].
      split; [by intros ->|by intros [-> _]]. }
  set (f1 := if _ : bool then request_supply_depot F f else f).
  assert (same_observations F (game f) (game f1)) as Hobs.
  { subst f1. destruct (_ && _); [|apply same_observations_refl].
    by apply request_supply_depot_observations. }
  assert (extends_with (allowed_request F (game f)) f f1) as Hf1.
  { subst f1. destruct (_ && _); [|apply extends_with_refl].
    unfold request_supply_depot.
    destruct (can_afford F (game f) SUPPLYDEPOT) eqn:Hafford;
      [|apply extends_with_refl].
    case_decide; [|apply extends_with_refl].
    apply do_register_behavior_extends. left. exists SUPPLYDEPOT, false.
    split_and!; [done..|by left]. }
  clearbody f1.
  assert (∀ b, same_observations F (game f)
                 (game (do_register_behavior F b f1))) as Hreg.
  { intros b. apply (same_observations_trans _ (game f1)); [done|].
    apply Hkeep. }
  destruct Hobs as (Hs & Hc & Hl & Hp & Hloc). rewrite Hs, Hc, Hloc.
  assert (∀ (a : bool) (R : Prop),
            (a = true ↔ a = true ∧ ∀ t, Some unit_type = Some t → R) ↔
            (a = true → R)) as Hsimpl by naive_solver.
  destruct (TECHLAB_TYPES F unit_type) eqn:Htl.
  - destruct (techlab_to_structure_get unit_type) as [base|] eqn:Hbase.
    2:{ cbn [fst snd]. split_and!; [by split_and!| |done].
        split; [|by intros [-> _]]. intros ->. split; [done|].
        intros t [= <-]. by apply structure_ready_techlab_unknown. }
    case_decide as Hlen; cbn [fst snd].
    + rewrite length_filter_0 in Hlen.
      assert (¬ structure_ready F (game f) unit_type) as Hnot.
      { rewrite (structure_ready_techlab _ _ base) by done.
        intros (s0 & Hin & Hs0). by apply (Hlen s0). }
      split_and!.
      * destruct (can_afford F (game f) unit_type); [apply Hreg|by split_and!].
      * split; [done|]. intros [_ Hall]. exfalso. apply Hnot. by apply Hall.
      * destruct (can_afford F (game f) unit_type) eqn:Hafford; [|done].
        eapply extends_with_trans; [exact Hf1|].
        apply do_register_behavior_extends. right. by exists unit_type.
    + split_and!; [by split_and!| |done].
      split; [|by intros [-> _]]. intros ->. split; [done|]. intros t [= <-].
      rewrite (structure_ready_techlab _ _ base) by done.
      destruct (filter _ _) as [|s0 l] eqn:Hfilter; [done|].
      assert (s0 ∈ filter (λ s, type_id s = base ∧ has_techlab s = true ∧
                                is_ready s = true) (structures F (game f)))
        as [? ?]%list_elem_of_filter by (rewrite Hfilter; left).
      by exists s0.
  - case_decide as Hlen; cbn [fst snd].
    + rewrite length_filter_0 in Hlen.
      assert (¬ structure_ready F (game f) unit_type) as Hnot.
      { rewrite structure_ready_other by done.
        intros (s0 & Hin & Hs0). by apply (Hlen s0). }
      split_and!.
      * case_decide; [|by split_and!].
        destruct (can_afford F (game f) unit_type); [apply Hreg|by split_and!].
      * split; [done|]. intros [_ Hall]. exfalso. apply Hnot. by apply Hall.
      * case_decide as Hpending; [|done].
        rewrite length_filter_0 in Hpending.
        destruct (can_afford F (game f) unit_type) eqn:Hafford; [|done].
        eapply extends_with_trans; [exact Hf1|].
        apply do_register_behavior_extends. left. eexists unit_type, _.
        split_and!; [done..|]. right. intros s0 Hin. by apply Hpending.
    + split_and!; [by split_and!| |done].
      split; [|by intros [-> _]]. intros ->. split; [done|]. intros t [= <-].
      rewrite structure_ready_other by done.
      destruct (filter _ _) as [|s0 l] eqn:Hfilter; [done|].
      assert (s0 ∈ filter (λ s, type_id s = unit_type ∧ is_ready s = true)
                     (structures F (game f)))
        as [? ?]%list_elem_of_filter by (rewrite Hfilter; left).
      by exists s0.
Qed.
Lemma structure_ready_same_observations w w' t :
  same_observations F w w' →
  structure_ready F w' t ↔ structure_ready F w t.
Proof. intros (Hs & _). unfold structure_ready. by rewrite Hs. Qed.

Lemma allowed_request_same_observations w w' c :
  same_observations F w w' → allowed_request F w' c → allowed_request F w c.
Proof.
  intros Hobs. pose proof Hobs as (Hs & Hc & _ & _ & Hloc).
  unfold allowed_request. rewrite Hs, Hc, Hloc.
  intros [?|(t & ? & ? & Hnot)]; [by left|right].
  exists t. split_and!; [done..|].
  by rewrite <-(structure_ready_same_observations w w').
Qed.

Lemma build_required_structures_rounds mapping l :
  register_keeps_observations F →
  ∀ all_ready f,
    same_observations F (game f)
      (game (foldl (λ st name, build_required_structure F mapping name st)
               (all_ready, f) l).2) ∧
    ((foldl (λ st name, build_required_structure F mapping name st)
        (all_ready, f) l).1 = true ↔
     all_ready = true ∧
     ∀ name t, name ∈ l → mapping !! name = Some t →
               structure_ready F (game f) t) ∧
    extends_with (allowed_request F (game f)) f
      (foldl (λ st name, build_required_structure F mapping name st)
         (all_ready, f) l).2.
Proof.
  intros Hkeep. induction l as [|x l IH]; intros all_ready f; cbn [foldl].
  - split_and!; [apply same_observations_refl| |apply extends_with_refl].
    cbn. split; [intros ->; split; [done|]|by intros [-> _]].
    intros name t Hin. by apply elem_of_nil in Hin.
  - destruct (build_required_structure_round mapping x all_ready f Hkeep)
      as (Hobs1 & Hready1 & Hext1).
    destruct (build_required_structure F mapping x (all_ready, f))
      as [a1 f1] eqn:Hround. cbn [fst snd] in *.
    destruct (IH a1 f1) as (Hobs & Hready & Hext). split_and!.
    + by eapply same_observations_trans.
    + rewrite Hready, Hready1. split.
      * intros [[-> Hx] Hl]. split; [done|].
        intros name t [->|Hin]%elem_of_cons Hlook; [by apply Hx|].
        rewrite <-(structure_ready_same_observations (game f) (game f1)) by done.
        by eapply Hl.
      * intros [-> Hall]. split_and!; [done| |].
        -- intros t Hlook. apply (Hall x); [left|done].
        -- intros name t Hin Hlook.
           rewrite (structure_ready_same_observations (game f) (game f1)) by done.
           apply (Hall name); [by right|done].
    + eapply extends_with_trans; [exact Hext1|].
      destruct Hext as (new & Hnew & HP). exists new. split; [done|].
      eapply Forall_impl; [exact HP|]. intros c.
      by apply allowed_request_same_observations.
Qed.

(** X18. In a framework where registering a behaviour leaves what the bot
    reads unchanged, [_build_required_structures] returns [True] exactly when
    every building of the order that the mapping has is there: a ready
    structure of its type, or for a tech lab a ready base with a tech lab. *)
Theorem build_required_structures_ready build_order mapping f :
  register_keeps_observations F →
  (build_required_structures F build_order mapping f).1 = true ↔
  ∀ name t, name ∈ res_buildings build_order → mapping !! name = Some t →
            structure_ready F (game f) t.
Proof.
  intros Hkeep. unfold build_required_structures.
  destruct (build_required_structures_rounds mapping
              (res_buildings build_order) Hkeep true f) as (_ & Hready & _).
  rewrite Hready. naive_solver.
Qed.


Lemma build_required_structure_depot mapping building_name all_ready f :
  Qltb (supply_left F (game f)) (Qint 2) = true →
  Qltb (supply_cap F (game f)) (Qint 200) = true →
  can_afford F (game f) SUPPLYDEPOT = true →
  (∀ s, s ∈ structures F (game f) → type_id s = SUPPLYDEPOT →
        is_ready s = true) →
  is_Some (mapping !! building_name) →
  ∃ new,
    calls (build_required_structure F mapping building_name (all_ready, f)).2
    = calls f ++ new ∧
    1 ≤ length (filter (λ c, is_depot_request c = true) new).
Proof.
  intros Hleft Hcap Hafford Hpending [unit_type Hlook].
  unfold build_required_structure. rewrite Hlook, Hleft, Hcap. cbn [andb].
  assert (request_supply_depot F f
          = do_register_behavior F
              (BuildStructure (start_location F (game f)) SUPPLYDEPOT false) f)
    as ->.
  { unfold request_supply_depot. rewrite Hafford.
    rewrite decide_True; [done|]. apply length_filter_0.
    intros s Hin [Htype Hready]. rewrite (Hpending s Hin Htype) in Hready.
    discriminate. }
  set (f1 := do_register_behavior F _ f).
  assert (∀ g, extends_with (λ _, True) f1 g →
            ∃ new, calls g = calls f ++ new ∧
                   1 ≤ length (filter (λ c, is_depot_request c = true) new))
    as Hfrom.
  { intros g (new & Hnew & _). eexists (_ :: new).
    split; [rewrite Hnew; subst f1; cbn; by rewrite <-app_assoc|].
    rewrite filter_cons_True by done. cbn. lia. }
  apply Hfrom.
  destruct (TECHLAB_TYPES F unit_type).
  - destruct (techlab_to_structure_get unit_type); [|apply extends_with_refl].
    case_decide; cbn [snd]; [|apply extends_with_refl].
    destruct (can_afford F (game f1) unit_type); [|apply extends_with_refl].
    by apply do_register_behavior_extends.
  - case_decide; cbn [snd]; [|apply extends_with_refl].
    case_decide; [|apply extends_with_refl].
    destruct (can_afford F (game f1) unit_type); [|apply extends_with_refl].
    by apply do_register_behavior_extends.
Qed.

Lemma build_required_structures_depot_rounds mapping l :
  register_keeps_observations F →
  ∀ all_ready f,
    Qltb (supply_left F (game f)) (Qint 2) = true →
    Qltb (supply_cap F (game f)) (Qint 200) = true →
    can_afford F (game f) SUPPLYDEPOT = true →
    (∀ s, s ∈ structures F (game f) → type_id s = SUPPLYDEPOT →
          is_ready s = true) →
    ∃ new,
      calls (foldl (λ st name, build_required_structure F mapping name st)
               (all_ready, f) l).2
      = calls f ++ new ∧
      length (filter (λ b, is_Some (mapping !! b)) l)
      ≤ length (filter (λ c, is_depot_request c = true) new).
Proof.
  intros Hkeep.
  induction l as [|x l IH];
    intros all_ready f Hleft Hcap Hafford Hpending; cbn [foldl].
  - exists []. by rewrite app_nil_r.
  - destruct (build_required_structure_round mapping x all_ready f Hkeep)
      as ((Hs & Hc & Hl & Hp & _) & _ & _).
    pose proof (build_required_structure_depot mapping x all_ready f
                  Hleft Hcap Hafford Hpending) as Hdepot.
    pose proof (build_required_structure_extends (λ _, True) mapping x
                  all_ready f) as Hext.
    destruct (build_required_structure F mapping x (all_ready, f))
      as [a1 f1]. cbn [fst snd] in *.
    destruct (IH a1 f1) as (new2 & Hnew2 & Hcount2);
      [by rewrite Hl|by rewrite Hp|by rewrite Hc|by rewrite Hs|].
    rewrite filter_cons. destruct (decide (is_Some (mapping !! x))) as [Hx|Hx].
    + destruct (Hdepot Hx) as (new1 & Hnew1 & Hcount1).
      exists (new1 ++ new2). split; [by rewrite Hnew2, Hnew1, app_assoc|].
      rewrite filter_app, length_app. cbn [length]. lia.
    + destruct Hext as (new1 & Hnew1 & _); [done..|].
      exists (new1 ++ new2). split; [by rewrite Hnew2, Hnew1, app_assoc|].
      rewrite filter_app, length_app. lia.
Qed.

(** X20. In such a framework, when the bot is short of supply (less than 2
    left, cap below 200), can pay for a depot and has none under
    construction, one call of [_build_required_structures] registers the
    supply depot again for every building of the order that the mapping has:
    the requests for a depot are at least as many as those buildings. *)
Theorem supply_depot_requested_per_building build_order mapping f :
  register_keeps_observations F →
  Qltb (supply_left F (game f)) (Qint 2) = true →
  Qltb (supply_cap F (game f)) (Qint 200) = true →
  can_afford F (game f) SUPPLYDEPOT = true →
  (∀ s, s ∈ structures F (game f) → type_id s = SUPPLYDEPOT →
        is_ready s = true) →
  ∃ new,
    calls (build_required_structures F build_order mapping f).2
    = calls f ++ new ∧
    length (filter (λ b, is_Some (mapping !! b)) (res_buildings build_order))
    ≤ length (filter (λ c, is_depot_request c = true) new).
Proof.
  intros Hkeep Hleft Hcap Hafford Hpending. unfold build_required_structures.
  by apply build_required_structures_depot_rounds.
Qed.


End tankbot_facts.



(** X22. [TankBot.__init__] does not raise: Marine, SiegeTank and Viking are
    keys of the table.  It leaves the bot in the phase "marines" with no flag
    set, and every building of its three build orders has a unit type in
    [name_to_unit_type], so that [_build_required_structures] skips none of
    them. *)
Theorem TankBot_init_orders :
  TankBot_init = Return initial_bot ∧
  phase_consistent initial_bot ∧
  ∀ order name,
    order ∈ [marine_build_order initial_bot;
             siege_tank_build_order initial_bot;
             viking_build_order initial_bot] →
    name ∈ res_buildings order →
    is_Some (name_to_unit_type !! name).
Proof.
  split; [vm_compute; reflexivity|]. split.
  - unfold phase_consistent. split_and!; [|vm_compute; reflexivity..].
    apply (bool_decide_unpack _). vm_compute. exact I.
  - assert (forallb
              (λ order,
                 forallb (λ name,
                            bool_decide (is_Some (name_to_unit_type !! name)))
                         (res_buildings order))
              [marine_build_order initial_bot;
               siege_tank_build_order initial_bot;
               viking_build_order initial_bot] = true) as Hall
      by (vm_compute; reflexivity).
    intros order name Horder Hname.
    rewrite forallb_forall in Hall.
    specialize (Hall order (proj1 (list_elem_of_In _ _) Horder)).
    rewrite forallb_forall in Hall.
    specialize (Hall name (proj1 (list_elem_of_In _ _) Hname)).
    by apply bool_decide_eq_true in Hall.
Qed.

Lemma snapshot_framework_keeps :
  register_keeps_observations snapshot_framework.
Proof. intros b w. by split_and!. Qed.

Lemma on_step_phases_witness :
  phase_consistent initial_bot ∧
  phase_consistent (on_step snapshot_framework 0 initial_bot opening_frame).1 ∧
  marine_build_order (on_step snapshot_framework 0 initial_bot opening_frame).1
  = marine_build_order initial_bot ∧
  siege_tank_build_order
    (on_step snapshot_framework 0 initial_bot opening_frame).1
  = siege_tank_build_order initial_bot ∧
  viking_build_order (on_step snapshot_framework 0 initial_bot opening_frame).1
  = viking_build_order initial_bot ∧
  phase_rank (current_build_phase initial_bot)
  ≤ phase_rank
      (current_build_phase
         (on_step snapshot_framework 0 initial_bot opening_frame).1)
  ≤ S (phase_rank (current_build_phase initial_bot)).
Proof.
  assert (phase_consistent initial_bot) as Hcons.
  { unfold phase_consistent. split_and!; [|vm_compute; reflexivity..].
    apply (bool_decide_unpack _). vm_compute. exact I. }
  split; [exact Hcons|].
  exact (on_step_phases snapshot_framework 0 initial_bot opening_frame Hcons).
Defined.

Lemma build_required_structures_ready_witness :
  register_keeps_observations snapshot_framework ∧
  ((build_required_structures snapshot_framework
      (marine_build_order initial_bot) name_to_unit_type opening_frame).1
   = true ↔
   ∀ name t,
     name ∈ res_buildings (marine_build_order initial_bot) →
     name_to_unit_type !! name = Some t →
     structure_ready snapshot_framework (game opening_frame) t).
Proof.
  split; [exact snapshot_framework_keeps|].
  exact (build_required_structures_ready snapshot_framework
           (marine_build_order initial_bot) name_to_unit_type opening_frame
           snapshot_framework_keeps).
Defined.


Lemma supply_depot_requested_per_building_witness :
  register_keeps_observations snapshot_framework ∧
  Qltb (supply_left snapshot_framework (game supply_blocked_frame)) (Qint 2)
  = true ∧
  Qltb (supply_cap snapshot_framework (game supply_blocked_frame)) (Qint 200)
  = true ∧
  can_afford snapshot_framework (game supply_blocked_frame) SUPPLYDEPOT = true ∧
  (∀ s, s ∈ structures snapshot_framework (game supply_blocked_frame) →
        type_id s = SUPPLYDEPOT → is_ready s = true) ∧
  ∃ new,
    calls (build_required_structures snapshot_framework
             (siege_tank_build_order initial_bot) name_to_unit_type
             supply_blocked_frame).2
    = calls supply_blocked_frame ++ new ∧
    length (filter (λ b, is_Some (name_to_unit_type !! b))
              (res_buildings (siege_tank_build_order initial_bot)))
    ≤ length (filter (λ c, is_depot_request c = true) new).
Proof.
  assert (∀ s, s ∈ structures snapshot_framework (game supply_blocked_frame) →
               type_id s = SUPPLYDEPOT → is_ready s = true) as Hpending
    by (intros s Hin; by apply elem_of_nil in Hin).
  split_and!; [exact snapshot_framework_keeps|reflexivity..|exact Hpending|].
  exact (supply_depot_requested_per_building snapshot_framework
           (siege_tank_build_order initial_bot) name_to_unit_type
           supply_blocked_frame snapshot_framework_keeps eq_refl eq_refl eq_refl
           Hpending).
Defined.

Lemma on_step_spawns_after_phase_witness :
  ∃ new,
    calls (on_step snapshot_framework 0 initial_bot opening_frame).2
    = calls opening_frame ++ new ∧
    ∀ u m,
      CallRegisterBehavior (SpawnController u m) ∈ new →
      (u = MARINE ∧ m = 10 ∧
       marines_ready (on_step snapshot_framework 0 initial_bot opening_frame).1
       = true) ∨
      (u = SIEGETANK ∧ m = 5 ∧
       tanks_ready (on_step snapshot_framework 0 initial_bot opening_frame).1
       = true) ∨
      (u = VIKING ∧ m = 3 ∧
       vikings_ready (on_step snapshot_framework 0 initial_bot opening_frame).1
       = true).
Proof.
  exact (on_step_spawns_after_phase snapshot_framework 0 initial_bot
           opening_frame).
Defined.

Lemma unmapped_buildings_skipped_witness :
  (∀ b, b ∈ ["GhostAcademy"; "Armory"] → name_to_unit_type !! b = None) ∧
  build_required_structures snapshot_framework
    (BuildRequirements ["GhostAcademy"; "Armory"] [] (Requirements [] []))
    name_to_unit_type opening_frame
  = (true, opening_frame).
Proof.
  assert (∀ b : string, b ∈ ["GhostAcademy"; "Armory"] →
            name_to_unit_type !! b = None) as Hnone.
  { intros b [->|[->|[]%elem_of_nil]%elem_of_cons]%elem_of_cons;
      vm_compute; reflexivity. }
  split; [exact Hnone|].
  exact (proj2 (unmapped_buildings_skipped snapshot_framework
                  (BuildRequirements ["GhostAcademy"; "Armory"] []
                     (Requirements [] []))
                  name_to_unit_type opening_frame) Hnone).
Defined.

